(** * nix-review: evaluation, de-duplication and build orchestration

    A shallow embedding of [nix_review/nix.py].

    Python objects that the code mutates in place are kept in an explicit
    store: the [aliases] field of an [Attr] is a reference to a list object,
    and two [Attr]s that hold the same reference see each other's appends.
    Calls to external programs go through one narrow interface
    ([External]) and leave an entry in a trace.

    Scope: a program that is run always yields an exit code (a program that
    cannot be started is not modelled), and a response that parses is
    well-formed, every item having its four fields (a parsed response with a
    malformed item, on which the loop of [_nix_eval_filter] would stop half
    way, is not modelled). No statement below is about those two cases. *)

From Stdlib Require Import Ascii ZArith.
From stdpp Require Import base option list strings pretty gmap.

Local Open Scope list_scope.

(** ** Python values *)

(** Identity of a Python list object. *)
Definition loc := nat.

(** The store of list-of-string objects, by identity. *)
Abbreviation heap := (gmap nat (list string)).

(** [xs.append(x)] on the object at [l]. *)
Definition list_append (l : loc) (x : string) (h : heap) : heap :=
  alter (λ xs, xs ++ [x]) l h.

(** The current contents of the list object at [l]. *)
Definition deref (h : heap) (l : loc) : list string :=
  default [] (h !! l).

(** An insertion-ordered [Dict[str, V]]: assigning to a key that is present
    replaces the value and keeps the key's position, assigning to a new key
    appends it. *)
Abbreviation dict V := (list (string * V)).

Fixpoint dict_get {V} (d : dict V) (k : string) : option V :=
  match d with
  | [] => None
  | (k', v) :: d' => if decide (k' = k) then Some v else dict_get d' k
  end.

Fixpoint dict_set {V} (d : dict V) (k : string) (v : V) : dict V :=
  match d with
  | [] => [(k, v)]
  | (k', v') :: d' =>
      if decide (k' = k) then (k', v) :: d' else (k', v') :: dict_set d' k v
  end.

Definition dict_keys {V} (d : dict V) : list string := d.*1.
Definition dict_values {V} (d : dict V) : list V := d.*2.

(** ** class Attr *)

Record Attr := mkAttr {
  name : string;
  exists_ : bool;
  broken : bool;
  blacklisted : bool;
  path : option string;
  _path_verified : option bool;
  drv_path : option string;
  aliases : loc
}.

(** The list object built once, when [def __init__(..., aliases=[])] is
    executed; every call that leaves [aliases] out receives this object. *)
Definition default_aliases : loc := 0.

(** [Attr.__init__] *)
Definition Attr_init (name : string) (exists_ broken blacklisted : bool)
    (path drv_path : option string) (aliases : loc) : Attr :=
  {| name := name;
     exists_ := exists_;
     broken := broken;
     blacklisted := blacklisted;
     path := path;
     _path_verified := None;
     drv_path := drv_path;
     aliases := aliases |}.

(** [Attr.is_test] *)
Definition is_test (self : Attr) : bool :=
  String.prefix "nixosTests" (name self).

(** ** _nix_eval_filter *)

(** One value of the evaluation response. *)
Record props := mkProps {
  p_exists : bool;
  p_broken : bool;
  p_path : option string;
  p_drvPath : option string
}.

Definition blacklist : gset string :=
  {[ "tests.nixos-functions.nixos-test";
     "tests.nixos-functions.nixosTest-test" ]}.

(** The [Attr] the loop body builds for one item. *)
Definition new_attr (item : string * props) : Attr :=
  Attr_init item.1 (p_exists item.2) (p_broken item.2)
    (bool_decide (item.1 ∈ blacklist))
    (p_path item.2) (p_drvPath item.2) default_aliases.

(** The loop's variables: [attr_by_path], [broken] and the store. *)
Definition filter_vars : Type := dict Attr * list Attr * heap.

(** The body of [for name, props in json.items()]. *)
Definition filter_step (st : filter_vars) (item : string * props)
    : filter_vars :=
  let '(attr_by_path, broken, h) := st in
  let attr := new_attr item in
  match path attr with
  | Some p =>
      match dict_get attr_by_path p with
      | None => (dict_set attr_by_path p attr, broken, h)
      | Some other =>
          (* len(other.name) > len(attr.name); a name is kept as the
             string of its characters *)
          if bool_decide (String.length (name attr) < String.length (name other))
          then (dict_set attr_by_path p attr, broken,
                list_append (aliases attr) (name other) h)
          else (attr_by_path, broken,
                list_append (aliases other) (name attr) h)
      end
  | None => (attr_by_path, broken ++ [attr], h)
  end.

Definition filter_loop (json : dict props) (h : heap) : filter_vars :=
  fold_left filter_step json ([], [], h).

Definition _nix_eval_filter (json : dict props) (h : heap)
    : list Attr * heap :=
  let '(attr_by_path, broken, h') := filter_loop json h in
  (dict_values attr_by_path ++ broken, h').

(** ** The outside world *)

(** What [subprocess.run] returns. *)
Record CompletedProcess := mkCompleted {
  returncode : Z;
  stdout : string
}.

(** Everything the program does outside its own memory, in order. *)
Inductive event :=
| EvTempFile (file : string)
| EvWrite (file : string) (text : string)
| EvUnlink (file : string)
| EvRun (argv : list string) (cwd : option string)
| EvInfo (msg : string)
| EvWarn (msg : string).

(** The narrow interface to the operating system: a fresh temporary file
    name, and running a program to completion (argv in, exit code and
    captured output out).  The answers may depend on everything that
    happened before. *)
Class External (World : Type) := {
  mktemp : World → string * World;
  spawn : list string → World → CompletedProcess * World
}.

(** An [event] that leaves the process: a program run or a file touched.
    Messages to the user are not. *)
Definition is_external (e : event) : bool :=
  match e with
  | EvInfo _ | EvWarn _ => false
  | _ => true
  end.

Definition is_run (e : event) : bool :=
  match e with EvRun _ _ => true | _ => false end.

Definition is_unlink (e : event) : bool :=
  match e with EvUnlink _ => true | _ => false end.

(** ** Exceptions and the monad of effectful code *)

Inductive exn := CalledProcessError | ValueError.

Inductive result (A : Type) :=
| Ok (a : A)
| Raise (e : exn).
Arguments Ok {A} a.
Arguments Raise {A} e.

Record state (World : Type) := mkState {
  world : World;
  store : heap;
  trace : list event
}.
Arguments mkState {World}.
Arguments world {World}.
Arguments store {World}.
Arguments trace {World}.

Definition M (World A : Type) : Type := state World → result A * state World.

Definition ret {W A} (a : A) : M W A := λ s, (Ok a, s).

Definition bind {W A B} (m : M W A) (k : A → M W B) : M W B := λ s,
  match m s with
  | (Ok a, s') => k a s'
  | (Raise e, s') => (Raise e, s')
  end.

Definition raise {W A} (e : exn) : M W A := λ s, (Raise e, s).

(** [try: m  except CalledProcessError: handler] *)
Definition try_except {W A} (m : M W A) (handler : M W A) : M W A := λ s,
  match m s with
  | (Raise CalledProcessError, s') => handler s'
  | r => r
  end.

Definition emit {W} (e : event) : M W unit := λ s,
  (Ok tt, mkState (world s) (store s) (trace s ++ [e])).

Definition with_store {W A} (f : heap → A * heap) : M W A := λ s,
  let '(a, h) := f (store s) in (Ok a, mkState (world s) h (trace s)).

#[global] Instance M_ret {W} : MRet (M W) := λ A, @ret W A.
#[global] Instance M_bind {W} : MBind (M W) := λ A B k m, bind m k.

Definition nl : string := String "010"%char EmptyString.
Definition dquote : string := String "034"%char EmptyString.

(** [Path.joinpath], on paths kept as strings. *)
Definition joinpath (dir file : string) : string := dir +:+ "/" +:+ file.

Section Program.

Context {World : Type} `{External World}.

(** Names imported from [nix_review.utils] and the Python library whose
    text is not part of this module. *)
Variable ROOT : string.
Variable escape_attr : string → string.
(** [json.dump] of a list of strings. *)
Variable json_dump : list string → string.
(** [json.loads] of the evaluation response; [None] when it raises. *)
Variable json_loads : string → option (dict props).
(** [shlex.split]; [None] when it raises [ValueError]. *)
Variable shlex_split : string → option (list string).
(** [multiprocessing.cpu_count()] *)
Variable cpu_count : nat.

Abbreviation M' := (M World).

(** Modelled from the spec: [utils.info] and [utils.warn] are not in this
    module; they show a message to the user and nothing else. *)
Definition info (msg : string) : M' unit := emit (EvInfo msg).
Definition warn (msg : string) : M' unit := emit (EvWarn msg).

(** [subprocess.run(argv)] without [check]: never raises on the exit
    code. *)
Definition subprocess_run (argv : list string) (cwd : option string)
    : M' CompletedProcess := λ s,
  let '(res, w) := spawn argv (world s) in
  (Ok res, mkState w (store s) (trace s ++ [EvRun argv cwd])).

(** [subprocess.run(argv, check=True)] *)
Definition subprocess_run_check (argv : list string) (cwd : option string)
    : M' CompletedProcess :=
  res ← subprocess_run argv cwd;
  if bool_decide (returncode res = 0%Z) then ret res
  else raise CalledProcessError.

(** Modelled from the spec: [utils.sh] is not in this module; it runs the
    command to completion and raises [CalledProcessError] on a non-zero
    exit. *)
Definition sh (command : list string) (cwd : option string) : M' unit :=
  subprocess_run_check command cwd;; ret tt.

(** [NamedTemporaryFile(mode="w+", delete=False)] *)
Definition NamedTemporaryFile : M' string := λ s,
  let '(file, w) := mktemp (world s) in
  (Ok file, mkState w (store s) (trace s ++ [EvTempFile file])).

(** *** Attr.was_build *)

Definition set_path_verified (self : Attr) (v : option bool) : Attr :=
  {| name := name self;
     exists_ := exists_ self;
     broken := broken self;
     blacklisted := blacklisted self;
     path := path self;
     _path_verified := v;
     drv_path := drv_path self;
     aliases := aliases self |}.

(** The object is passed in and handed back with its [_path_verified]
    field as the call left it. *)
Definition was_build (self : Attr) : M' (bool * Attr) :=
  match path self with
  | None => ret (false, self)
  | Some p =>
      match _path_verified self with
      | Some b => ret (b, self)
      | None =>
          res ← subprocess_run ["nix-store"; "--verify-path"; p] None;
          let b := bool_decide (returncode res = 0%Z) in
          ret (b, set_path_verified self (Some b))
      end
  end.

(** [n] calls in a row on the same object. *)
Fixpoint was_build_repeat (n : nat) (self : Attr) : M' (list bool * Attr) :=
  match n with
  | 0 => ret ([], self)
  | S n' =>
      r ← was_build self;
      rs ← was_build_repeat n' r.2;
      ret (r.1 :: rs.1, rs.2)
  end.

(** *** write_shell_expression *)

Definition shell_header : string :=
  "{ pkgs ? import ./nixpkgs {} }:" +:+ nl +:+
  "with pkgs;" +:+ nl +:+
  "stdenv.mkDerivation {" +:+ nl +:+
  "  name = " +:+ dquote +:+ "env" +:+ dquote +:+ ";" +:+ nl +:+
  "  buildInputs = [" +:+ nl.

Definition shell_footer : string :=
  nl +:+
  "  ];" +:+ nl +:+
  "  unpackPhase = " +:+ dquote +:+ ":" +:+ dquote +:+ ";" +:+ nl +:+
  "  installPhase = " +:+ dquote +:+ "touch $out" +:+ dquote +:+ ";" +:+ nl +:+
  "}" +:+ nl.

(** One line of [buildInputs] for each attribute. *)
Definition shell_lines (attrs : list string) : list string :=
  (λ a, "    " +:+ escape_attr a) <$> attrs.

Definition shell_expression (attrs : list string) : string :=
  shell_header +:+ String.concat nl (shell_lines attrs) +:+ shell_footer.

Definition write_shell_expression (filename : string) (attrs : list string)
    : M' unit :=
  emit (EvWrite filename (shell_expression attrs)).

(** *** nix_shell *)

Definition nix_shell (attrs : list string) (cache_directory : string)
    : M' unit :=
  if bool_decide (length attrs = 0) then
    info "No packages were successfully build, skip nix-shell"
  else
    let shell := joinpath cache_directory "shell.nix" in
    write_shell_expression shell attrs;;
    sh ["nix-shell"; shell] (Some cache_directory).

(** *** nix_eval *)

Definition eval_cmd (attr_json : string) : list string :=
  let eval_script := joinpath ROOT "nix/evalAttrs.nix" in
  ["nix"; "eval"; "--json";
   "(import " +:+ eval_script +:+ " " +:+ attr_json +:+ ")"].

(** The body of the outer [try], with the local variable [delete] written
    into the result: [(r, delete)]. *)
Definition nix_eval_try (attrs : list string) (attr_json : string)
    : state World → (result (list Attr) * bool) * state World := λ s,
  let '(_, s) := emit (EvWrite attr_json (json_dump attrs)) s in
  let cmd := eval_cmd attr_json in
  match subprocess_run_check cmd None s with
  | (Raise CalledProcessError, s) =>
      let '(_, s) :=
        warn (String.concat " " cmd +:+ " failed to run, " +:+ attr_json
              +:+ " was stored inspection") s in
      (Raise CalledProcessError, false, s)
  | (Raise e, s) => (Raise e, true, s)
  | (Ok nix_eval, s) =>
      match json_loads (stdout nix_eval) with
      | None => (Raise ValueError, true, s)
      | Some json =>
          let '(r, s) := with_store (_nix_eval_filter json) s in
          (r, true, s)
      end
  end.

Definition nix_eval (attrs : list string) : M' (list Attr) := λ s,
  match NamedTemporaryFile s with
  | (Raise e, s) => (Raise e, s)
  | (Ok attr_json, s) =>
      let '(r, delete, s) := nix_eval_try attrs attr_json s in
      (* finally: *)
      if delete : bool then
        let '(_, s) := emit (EvUnlink attr_json) s in (r, s)
      else (r, s)
  end.

(** *** nix_build *)

(** The loop that fills [filtered]. *)
Definition filtered (attrs : list Attr) : list string :=
  fold_left
    (λ filtered attr,
       if negb (broken attr || blacklisted attr)
       then filtered ++ [name attr] else filtered)
    attrs [].

Definition build_command (build : string) (words : list string)
    : list string :=
  ["nix"; "build"; "--no-link"; "--keep-going";
   "--max-jobs"; pretty cpu_count;
   "--option"; "build-use-sandbox"; "true";
   "-f"; build] ++ words.

Definition nix_build (attr_names : list string) (args : string)
    (cache_directory : string) : M' (list Attr) :=
  if bool_decide (attr_names = []) then
    info "Nothing changed";; ret []
  else
    attrs ← nix_eval attr_names;
    let filtered := filtered attrs in
    if bool_decide (length filtered = 0) then ret attrs
    else
      let build := joinpath cache_directory "build.nix" in
      write_shell_expression build filtered;;
      match shlex_split args with
      | None => raise ValueError
      | Some words =>
          let command := build_command build words in
          try_except (sh command None) (ret tt);;
          ret attrs
      end.

End Program.

(** ** Vocabulary of the statements *)

(** The distinct elements of [ps], each at the place of its first
    occurrence. *)
Fixpoint first_seen (ps : list string) : list string :=
  match ps with
  | [] => []
  | p :: ps' => p :: filter (λ q, q ≠ p) (first_seen ps')
  end.

(** The non-null output paths of the items of [l], in order. *)
Definition resolved_paths (l : dict props) : list string :=
  omap (λ it, p_path it.2) l.

(** The items of [l] without an output path, in order. *)
Definition unresolved (l : dict props) : dict props :=
  filter (λ it, p_path it.2 = None) l.

(** [c] is, among the items of [l] whose output path is [p], the first of
    those with the fewest characters in the name. *)
Definition canonical_of (l : dict props) (p : string) (c : string * props)
    : Prop :=
  ∃ l1 l2,
    l = l1 ++ c :: l2 ∧ p_path c.2 = Some p ∧
    (∀ it, it ∈ l1 → p_path it.2 = Some p →
           String.length c.1 < String.length it.1) ∧
    (∀ it, it ∈ l2 → p_path it.2 = Some p →
           String.length c.1 ≤ String.length it.1).

(** What holds of [attr_by_path] and [broken] after the items [l] have
    been processed. *)
Record loop_inv (l : dict props) (st : filter_vars) : Prop := {
  inv_keys : dict_keys st.1.1 = first_seen (resolved_paths l);
  inv_canon : ∀ p t, dict_get st.1.1 p = Some t →
                ∃ c, canonical_of l p c ∧ t = new_attr c;
  inv_broken : st.1.2 = new_attr <$> unresolved l
}.

(** What holds of the store after the items [l] have been processed,
    starting from the store [h0]. *)
Record store_inv (h0 : heap) (l : dict props) (st : filter_vars) : Prop := {
  inv_alias : ∀ it p t, it ∈ l → p_path it.2 = Some p →
                dict_get st.1.1 p = Some t →
                it.1 = name t ∨ it.1 ∈ deref st.2 default_aliases;
  inv_alloc : is_Some (st.2 !! default_aliases);
  inv_frame : ∀ l', l' ≠ default_aliases → st.2 !! l' = h0 !! l'
}.

(** The dictionary that maps the output path of each item of [l] that has
    one to the target built from that item, in the order of [l]. *)
Definition keyed (l : dict props) : dict Attr :=
  omap (λ it, (λ p, (p, new_attr it)) <$> p_path it.2) l.

(** The items of [l] with an output path, in order. *)
Definition resolved (l : dict props) : dict props :=
  filter (λ it, is_Some (p_path it.2)) l.

#[global] Instance props_eq_dec : EqDecision props.
Proof. solve_decision. Defined.

(** [s] has no line break in it. *)
Fixpoint nl_free (s : string) : bool :=
  match s with
  | EmptyString => true
  | String c s' => negb (Ascii.eqb c "010") && nl_free s'
  end.

(** The events a run added to the trace. *)
Definition new_events {W} (s s' : state W) : list event :=
  drop (length (trace s)) (trace s').

Section eval_vocabulary.

Context {World : Type} `{External World}.
Variables (ROOT : string) (json_dump : list string → string).

(** The temporary file and the outcome of the evaluation in state [s]. *)
Definition eval_file (s : state World) : string := (mktemp (world s)).1.
Definition eval_proc (s : state World) : CompletedProcess :=
  (spawn (eval_cmd ROOT (eval_file s)) (mktemp (world s)).2).1.
Definition eval_world (s : state World) : World :=
  (spawn (eval_cmd ROOT (eval_file s)) (mktemp (world s)).2).2.

(** The events of every evaluation, up to the end of the program run. *)
Definition eval_events (attrs : list string) (s : state World) : list event :=
  [EvTempFile (eval_file s);
   EvWrite (eval_file s) (json_dump attrs);
   EvRun (eval_cmd ROOT (eval_file s)) None].

Definition eval_warning (s : state World) : string :=
  String.concat " " (eval_cmd ROOT (eval_file s)) +:+ " failed to run, "
    +:+ eval_file s +:+ " was stored inspection".

End eval_vocabulary.

(** ** A scripted world *)

(** A world that hands out one temporary file name and answers each
    program run with the next outcome of a script (exit code 0 and no output
    once the script is used up). *)
Definition script := list CompletedProcess.

#[global] Instance script_external : External script := {|
  mktemp w := ("/tmp/tmpattrs", w);
  spawn argv w :=
    match w with
    | [] => (mkCompleted 0 EmptyString, [])
    | res :: w' => (res, w')
    end
|}.

(** ** Sample responses *)

(** The store right after the module is loaded: the default list exists
    and is empty. *)
Definition initial_heap : heap := {[ default_aliases := [] ]}.

(** A healthy item of the response with the given output path. *)
Definition ex_item (n : string) (p : option string) : string * props :=
  (n, mkProps true false p (Some (n +:+ ".drv"))).

(** Two names for one output path. *)
Definition ex_pair : dict props :=
  [ex_item "a" (Some "/store/xyz"); ex_item "bb" (Some "/store/xyz")].

(** Three names for one output path. *)
Definition ex_triple : dict props :=
  [ex_item "a" (Some "/p"); ex_item "bb" (Some "/p"); ex_item "ccc" (Some "/p")].

(** Two names for [/p] and a third target with its own output path. *)
Definition ex_two_paths : dict props :=
  [ex_item "a" (Some "/p"); ex_item "bb" (Some "/p"); ex_item "c" (Some "/q")].

(** A target that is not marked broken and has no output path. *)
Definition ex_no_path : dict props := [ex_item "c" None].

(** A name the evaluation does not know: [exists] is false, and nothing
    else is wrong with it. *)
Definition ex_missing : dict props :=
  [("ghost", mkProps false false None None)].

(** A target of the denylist that the evaluation does not mark broken. *)
Definition ex_denylisted : dict props :=
  [ex_item "tests.nixos-functions.nixos-test" (Some "/store/t");
   ex_item "hello" (Some "/store/h")].

(** What one sees of a returned target: its name, its output path and the
    contents of its alias list. *)
Definition view (h : heap) (t : Attr) : string * option string * list string :=
  (name t, path t, deref h (aliases t)).

(** ** Sample runs *)

(** Stand-ins for the imported helpers: output texts are looked up in a
    table of parsed responses, arguments are split at blanks. *)
Definition ex_loads : string → option (dict props) :=
  dict_get [("pair", ex_pair); ("no_path", ex_no_path);
            ("denylisted", ex_denylisted); ("missing", ex_missing)].
Definition ex_split (args : string) : option (list string) :=
  Some (String.words args).
Definition ex_dump (attrs : list string) : string :=
  "[" +:+ String.concat ", " attrs +:+ "]".
Definition ex_escape (a : string) : string := a.

Definition ex_state (w : script) : state script := mkState w initial_heap [].

Definition ex_nix_eval (attrs : list string) : M script (list Attr) :=
  nix_eval "/root" ex_dump ex_loads attrs.

Definition ex_nix_build (attr_names : list string) (args : string)
    : M script (list Attr) :=
  nix_build "/root" ex_escape ex_dump ex_loads ex_split 4 attr_names args "/cache".

(** A response in which nothing can be built: one target marked broken
    and one of the denylist. *)
Definition ex_unbuildable : dict props :=
  [("x", mkProps true true None None);
   ex_item "tests.nixos-functions.nixosTest-test" (Some "/store/t2")].

Definition ex_loads_more : string → option (dict props) :=
  dict_get [("unbuildable", ex_unbuildable); ("two_paths", ex_two_paths)].

(** A splitter that rejects a lone quote. *)
Definition ex_split_strict (args : string) : option (list string) :=
  if bool_decide (args = "'") then None else Some (String.words args).

(** * Properties *)

(** ** Insertion-ordered dictionaries *)

Section dict_facts.
Context {V : Type}.
Implicit Types (d : dict V) (k : string) (v : V).

Lemma dict_get_None d k : dict_get d k = None ↔ k ∉ dict_keys d.
Proof.
  unfold dict_keys. induction d as [|[k' v'] d IH]; csimpl.
  - split; [intros _; apply not_elem_of_nil | done].
  - case_decide as E; subst.
    + split; [done | intros []; left].
    + rewrite IH, not_elem_of_cons. naive_solver.
Qed.

Lemma dict_elem_get d k v : NoDup (dict_keys d) → (k, v) ∈ d → dict_get d k = Some v.
Proof.
  unfold dict_keys. induction d as [|[k' v'] d IH]; csimpl.
  - intros _ Hin. by apply elem_of_nil in Hin.
  - rewrite NoDup_cons. intros [Hk Hnd] Hin.
    apply elem_of_cons in Hin as [Heq|Hin].
    + injection Heq as <- <-. by rewrite decide_True.
    + rewrite decide_False; [auto|].
      intros ->. apply Hk. apply list_elem_of_fmap. by exists (k, v).
Qed.

Lemma dict_get_set d k v k' :
  dict_get (dict_set d k v) k' = if decide (k = k') then Some v else dict_get d k'.
Proof.
  induction d as [|[k0 v0] d IH]; csimpl.
  - repeat case_decide; congruence.
  - destruct (decide (k0 = k)) as [->|Hne]; csimpl.
    + repeat case_decide; congruence.
    + rewrite IH. repeat case_decide; congruence.
Qed.

(** Assignment keeps the position of a key that is present and puts a new
    key last. *)
Lemma dict_keys_set d k v :
  dict_keys (dict_set d k v) =
  if decide (k ∈ dict_keys d) then dict_keys d else dict_keys d ++ [k].
Proof.
  unfold dict_keys. induction d as [|[k0 v0] d IH]; csimpl; [done|].
  - destruct (decide (k0 = k)) as [->|Hne]; csimpl.
    + rewrite decide_True; [done | left].
    + rewrite IH. destruct (decide (k ∈ d.*1)) as [Hin|Hnin].
      * rewrite decide_True; [done | by right].
      * rewrite decide_False; [done|].
        rewrite not_elem_of_cons. naive_solver.
Qed.

End dict_facts.

(** ** Paths in the order they are first seen *)

Lemma first_seen_elem ps q : q ∈ first_seen ps ↔ q ∈ ps.
Proof.
  induction ps as [|p ps IH]; simpl; [done|].
  rewrite !elem_of_cons, list_elem_of_filter, IH.
  destruct (decide (q = p)); naive_solver.
Qed.

Lemma first_seen_snoc ps p :
  first_seen (ps ++ [p]) =
  if decide (p ∈ ps) then first_seen ps else first_seen ps ++ [p].
Proof.
  induction ps as [|a ps IH]; simpl; [done|].
  rewrite IH. destruct (decide (p = a)) as [->|Hne].
  - rewrite (decide_True (P := a ∈ a :: ps)) by left. f_equal.
    destruct (decide (a ∈ ps)); [done|].
    rewrite filter_app, filter_cons_False, filter_nil by naive_solver.
    by rewrite app_nil_r.
  - destruct (decide (p ∈ ps)) as [Hin|Hnin].
    + rewrite (decide_True (P := p ∈ a :: ps)) by (by right). done.
    + rewrite (decide_False (P := p ∈ a :: ps))
        by (rewrite not_elem_of_cons; naive_solver).
      rewrite filter_app, filter_cons_True, filter_nil by done. done.
Qed.

Lemma first_seen_NoDup ps : NoDup (first_seen ps).
Proof.
  induction ps as [|p ps IH]; simpl; [constructor|].
  apply NoDup_cons. split.
  - rewrite list_elem_of_filter. naive_solver.
  - by apply NoDup_filter.
Qed.

(** ** The store *)

Lemma deref_list_append (h : heap) (l : loc) (x : string) :
  is_Some (h !! l) → deref (list_append l x h) l = deref h l ++ [x].
Proof.
  intros [xs Hxs]. unfold deref, list_append.
  by rewrite lookup_alter_eq, Hxs.
Qed.

Lemma lookup_list_append_ne (h : heap) (l l' : loc) (x : string) :
  l ≠ l' → list_append l x h !! l' = h !! l'.
Proof. intros. unfold list_append. by rewrite lookup_alter_ne. Qed.

Lemma list_append_is_Some (h : heap) (l l' : loc) (x : string) :
  is_Some (h !! l') → is_Some (list_append l x h !! l').
Proof.
  intros [xs Hxs]. unfold list_append.
  destruct (decide (l = l')) as [->|Hne].
  - rewrite lookup_alter_eq, Hxs. by eexists.
  - rewrite lookup_alter_ne, Hxs by done. by eexists.
Qed.

(** ** The de-duplication loop *)

Lemma canonical_of_min l p c it :
  canonical_of l p c → it ∈ l → p_path it.2 = Some p →
  String.length c.1 ≤ String.length it.1.
Proof.
  intros (l1 & l2 & -> & Hc & H1 & H2) Hin Hp.
  apply elem_of_app in Hin as [Hin|Hin].
  - specialize (H1 _ Hin Hp). lia.
  - apply elem_of_cons in Hin as [->|Hin]; [lia | by apply H2].
Qed.

Lemma canonical_of_elem l p c : canonical_of l p c → c ∈ l.
Proof.
  intros (l1 & l2 & -> & _). apply elem_of_app. right. left.
Qed.

Lemma canonical_of_snoc_keep l p c it :
  canonical_of l p c →
  (p_path it.2 = Some p → String.length c.1 ≤ String.length it.1) →
  canonical_of (l ++ [it]) p c.
Proof.
  intros (l1 & l2 & -> & Hc & H1 & H2) Hit.
  exists l1, (l2 ++ [it]). split; [by rewrite <- app_assoc|].
  split; [done|]. split; [done|].
  intros x Hx Hp. apply elem_of_app in Hx as [Hx|Hx]; [by apply H2|].
  apply list_elem_of_singleton in Hx as ->. by apply Hit.
Qed.

Lemma canonical_of_snoc_new l p it :
  p_path it.2 = Some p →
  (∀ x, x ∈ l → p_path x.2 = Some p →
        String.length it.1 < String.length x.1) →
  canonical_of (l ++ [it]) p it.
Proof.
  intros Hp Hl. exists l, []. split; [done|]. split; [done|].
  split; [done|]. intros x Hx. by apply elem_of_nil in Hx.
Qed.

Lemma resolved_paths_elem l p :
  p ∈ resolved_paths l ↔ ∃ it, it ∈ l ∧ p_path it.2 = Some p.
Proof. unfold resolved_paths. by rewrite list_elem_of_omap. Qed.

Lemma resolved_paths_snoc l it :
  resolved_paths (l ++ [it]) =
  resolved_paths l ++ match p_path it.2 with Some p => [p] | None => [] end.
Proof.
  unfold resolved_paths. rewrite omap_app. simpl.
  by destruct (p_path it.2).
Qed.

Lemma unresolved_snoc l it :
  unresolved (l ++ [it]) =
  unresolved l ++ match p_path it.2 with Some p => [] | None => [it] end.
Proof.
  unfold unresolved. rewrite filter_app. f_equal.
  destruct (p_path it.2) eqn:E.
  - rewrite filter_cons_False; [done | by rewrite E].
  - by rewrite filter_cons_True.
Qed.

Ltac unfold_step it :=
  simpl in *; unfold filter_step;
  change (path (new_attr it)) with (p_path it.2);
  change (name (new_attr it)) with it.1;
  change (aliases (new_attr it)) with default_aliases.

Ltac unfold_other c :=
  change (name (new_attr c)) with c.1;
  change (aliases (new_attr c)) with default_aliases.

Lemma loop_inv_step l st it :
  loop_inv l st → loop_inv (l ++ [it]) (filter_step st it).
Proof.
  destruct st as [[abp brk] h]. intros [Hkeys Hcanon Hbrk].
  unfold_step it.
  destruct (p_path it.2) as [q|] eqn:Eq.
  - destruct (dict_get abp q) as [other|] eqn:Eget.
    + (* the path already has a canonical target *)
      destruct (Hcanon _ _ Eget) as (c & Hc & ->). unfold_other c.
      assert (Hq : q ∈ resolved_paths l).
      { apply resolved_paths_elem. exists c. split.
        - by eapply canonical_of_elem.
        - by destruct Hc as (? & ? & _ & ? & _). }
      assert (Hqk : q ∈ dict_keys abp) by (rewrite Hkeys; by apply first_seen_elem).
      case_bool_decide as Hlen; split; simpl.
      * rewrite dict_keys_set, decide_True by done.
        by rewrite resolved_paths_snoc, Eq, first_seen_snoc, decide_True.
      * intros p t. rewrite dict_get_set. case_decide as Ep.
        -- subst p. intros [= <-]. exists it. split; [|done].
           apply canonical_of_snoc_new; [done|].
           intros x Hx Hxp. pose proof (canonical_of_min _ _ _ _ Hc Hx Hxp). lia.
        -- intros Hget. destruct (Hcanon _ _ Hget) as (c' & Hc' & ->).
           exists c'. split; [|done].
           apply canonical_of_snoc_keep; [done|]. congruence.
      * by rewrite unresolved_snoc, Eq, app_nil_r.
      * by rewrite resolved_paths_snoc, Eq, first_seen_snoc, decide_True.
      * intros p t Hget. destruct (Hcanon _ _ Hget) as (c' & Hc' & ->).
        exists c'. split; [|done].
        apply canonical_of_snoc_keep; [done|].
        intros Hp. assert (p = q) as -> by congruence.
        rewrite Eget in Hget. injection Hget as <-. lia.
      * by rewrite unresolved_snoc, Eq, app_nil_r.
    + (* first item with this path *)
      assert (Hqk : q ∉ dict_keys abp) by by apply dict_get_None.
      assert (Hq : q ∉ resolved_paths l).
      { intros Hq. apply Hqk. rewrite Hkeys. by apply first_seen_elem. }
      assert (Hnone : ∀ x, x ∈ l → p_path x.2 ≠ Some q).
      { intros x Hx Hxp. apply Hq, resolved_paths_elem. by exists x. }
      split; simpl.
      * rewrite dict_keys_set, decide_False by done.
        by rewrite resolved_paths_snoc, Eq, first_seen_snoc, decide_False, Hkeys.
      * intros p t. rewrite dict_get_set. case_decide as Ep.
        -- subst p. intros [= <-]. exists it. split; [|done].
           apply canonical_of_snoc_new; [done|].
           intros x Hx Hxp. by destruct (Hnone x Hx).
        -- intros Hget. destruct (Hcanon _ _ Hget) as (c' & Hc' & ->).
           exists c'. split; [|done].
           apply canonical_of_snoc_keep; [done|]. congruence.
      * by rewrite unresolved_snoc, Eq, app_nil_r.
  - (* no output path *)
    split; simpl.
    + by rewrite resolved_paths_snoc, Eq, app_nil_r.
    + intros p t Hget. destruct (Hcanon _ _ Hget) as (c' & Hc' & ->).
      exists c'. split; [|done].
      apply canonical_of_snoc_keep; [done|]. congruence.
    + by rewrite unresolved_snoc, Eq, fmap_app, Hbrk.
Qed.

Lemma store_inv_step h0 l st it :
  loop_inv l st → store_inv h0 l st →
  store_inv h0 (l ++ [it]) (filter_step st it).
Proof.
  destruct st as [[abp brk] h].
  intros [Hkeys Hcanon Hbrk] [Halias Halloc Hframe].
  unfold_step it.
  destruct (p_path it.2) as [q|] eqn:Eq.
  - destruct (dict_get abp q) as [other|] eqn:Eget.
    + destruct (Hcanon _ _ Eget) as (c & Hc & ->). unfold_other c.
      case_bool_decide as Hlen; split; simpl.
      * (* the new item replaces [c], whose name is appended *)
        intros x p t Hx Hxp. rewrite dict_get_set. case_decide as Ep.
        -- subst p. intros [= <-]. simpl.
           apply elem_of_app in Hx as [Hx|Hx].
           ++ right. rewrite deref_list_append by done.
              destruct (Halias _ _ _ Hx Hxp Eget) as [->|Hin].
              ** apply elem_of_app. right. left.
              ** apply elem_of_app. by left.
           ++ apply list_elem_of_singleton in Hx as ->. by left.
        -- intros Hget. apply elem_of_app in Hx as [Hx|Hx].
           ++ destruct (Halias _ _ _ Hx Hxp Hget) as [?|Hin]; [by left|].
              right. rewrite deref_list_append by done.
              apply elem_of_app. by left.
           ++ apply list_elem_of_singleton in Hx as ->. congruence.
      * by apply list_append_is_Some.
      * intros l' Hl'. rewrite lookup_list_append_ne by done. by apply Hframe.
      * (* [c] stays, the new item's name is appended *)
        intros x p t Hx Hxp Hget. apply elem_of_app in Hx as [Hx|Hx].
        -- destruct (Halias _ _ _ Hx Hxp Hget) as [?|Hin]; [by left|].
           right. rewrite deref_list_append by done.
           apply elem_of_app. by left.
        -- apply list_elem_of_singleton in Hx as ->.
           right. rewrite deref_list_append by done.
           apply elem_of_app. right. left.
      * by apply list_append_is_Some.
      * intros l' Hl'. rewrite lookup_list_append_ne by done. by apply Hframe.
    + assert (Hqk : q ∉ dict_keys abp) by by apply dict_get_None.
      assert (Hnone : ∀ x, x ∈ l → p_path x.2 ≠ Some q).
      { intros x Hx Hxp. apply Hqk. rewrite Hkeys.
        apply first_seen_elem, resolved_paths_elem. by exists x. }
      split; simpl; [|done..].
      intros x p t Hx Hxp. rewrite dict_get_set. case_decide as Ep.
      * subst p. intros [= <-]. simpl.
        apply elem_of_app in Hx as [Hx|Hx]; [by destruct (Hnone x Hx)|].
        apply list_elem_of_singleton in Hx as ->. by left.
      * intros Hget. apply elem_of_app in Hx as [Hx|Hx]; [by eapply Halias|].
        apply list_elem_of_singleton in Hx as ->. congruence.
  - split; simpl; [|done..].
    intros x p t Hx Hxp Hget. apply elem_of_app in Hx as [Hx|Hx]; [by eapply Halias|].
    apply list_elem_of_singleton in Hx as ->. congruence.
Qed.

Lemma filter_loop_snoc l it h :
  filter_loop (l ++ [it]) h = filter_step (filter_loop l h) it.
Proof. unfold filter_loop. by rewrite fold_left_app. Qed.

Lemma filter_loop_inv l h : loop_inv l (filter_loop l h).
Proof.
  induction l as [|it l IH] using rev_ind.
  - by split.
  - rewrite filter_loop_snoc. by apply loop_inv_step.
Qed.

Lemma filter_loop_store_inv l h0 :
  is_Some (h0 !! default_aliases) → store_inv h0 l (filter_loop l h0).
Proof.
  intros Hh. induction l as [|it l IH] using rev_ind.
  - split; simpl; try done.
    all: intros it p t Hin; by apply elem_of_nil in Hin.
  - rewrite filter_loop_snoc.
    apply store_inv_step; [apply filter_loop_inv | done].
Qed.

(** ** The returned list *)

Lemma nix_eval_filter_fst json h :
  (_nix_eval_filter json h).1 =
  dict_values (filter_loop json h).1.1 ++ (new_attr <$> unresolved json).
Proof.
  unfold _nix_eval_filter.
  pose proof (inv_broken _ _ (filter_loop_inv json h)) as Hbrk.
  destruct (filter_loop json h) as [[abp brk] h']. simpl in *. by rewrite Hbrk.
Qed.

Lemma nix_eval_filter_snd json h :
  (_nix_eval_filter json h).2 = (filter_loop json h).2.
Proof.
  unfold _nix_eval_filter. by destruct (filter_loop json h) as [[abp brk] h'].
Qed.

Lemma attr_by_path_NoDup json h : NoDup (dict_keys (filter_loop json h).1.1).
Proof.
  rewrite (inv_keys _ _ (filter_loop_inv json h)). apply first_seen_NoDup.
Qed.

Lemma attr_by_path_elem json h k t :
  (k, t) ∈ (filter_loop json h).1.1 →
  ∃ c, canonical_of json k c ∧ t = new_attr c.
Proof.
  intros Hin. apply (inv_canon _ _ (filter_loop_inv json h)).
  apply dict_elem_get; [apply attr_by_path_NoDup | done].
Qed.

Lemma attr_by_path_path json h k t :
  (k, t) ∈ (filter_loop json h).1.1 → path t = Some k.
Proof.
  intros Hin. destruct (attr_by_path_elem _ _ _ _ Hin) as (c & Hc & ->).
  by destruct Hc as (? & ? & _ & ? & _).
Qed.

Lemma unresolved_path it json : it ∈ unresolved json → p_path it.2 = None.
Proof. unfold unresolved. rewrite list_elem_of_filter. naive_solver. Qed.

(** Every returned target was built from one item of the response. *)
Lemma nix_eval_filter_elem json h t :
  t ∈ (_nix_eval_filter json h).1 → ∃ it, it ∈ json ∧ t = new_attr it.
Proof.
  rewrite nix_eval_filter_fst, elem_of_app. intros [Hin|Hin].
  - unfold dict_values in Hin. apply list_elem_of_fmap in Hin as ([k t'] & -> & Hin).
    destruct (attr_by_path_elem _ _ _ _ Hin) as (c & Hc & ->).
    exists c. split; [by eapply canonical_of_elem | done].
  - apply list_elem_of_fmap in Hin as (it & -> & Hin).
    exists it. split; [|done].
    unfold unresolved in Hin. apply list_elem_of_filter in Hin. naive_solver.
Qed.

Lemma filter_none {A} (P : A → Prop) `{!∀ x, Decision (P x)} (l : list A) :
  (∀ x, x ∈ l → ¬ P x) → filter P l = [].
Proof.
  induction l as [|x l IH]; intros Hl; [done|].
  rewrite filter_cons_False by (apply Hl; left).
  apply IH. intros y Hy. apply Hl. by right.
Qed.

Lemma unresolved_no_path json p :
  filter (λ t, path t = Some p) (new_attr <$> unresolved json) = [].
Proof.
  apply filter_none. intros t Ht.
  apply list_elem_of_fmap in Ht as (it & -> & Hit).
  apply unresolved_path in Hit.
  change (path (new_attr it)) with (p_path it.2). congruence.
Qed.

(** The targets with output path [p] in a dictionary keyed by output
    path. *)
Lemma filter_path_values (d : dict Attr) (p : string) :
  NoDup (dict_keys d) → (∀ k t, (k, t) ∈ d → path t = Some k) →
  filter (λ t, path t = Some p) (dict_values d) =
  match dict_get d p with Some t => [t] | None => [] end.
Proof.
  unfold dict_keys, dict_values.
  induction d as [|[k t] d IH]; csimpl; [done|].
  rewrite NoDup_cons. intros [Hk Hnd] Hpath.
  assert (Hkt : path t = Some k) by (apply Hpath; left).
  assert (Hd : ∀ k' t', (k', t') ∈ d → path t' = Some k')
    by (intros; apply Hpath; by right).
  case_decide as Ek.
  - subst k. rewrite filter_cons_True by done.
    rewrite IH by done.
    assert (dict_get d p = None) as -> by by apply dict_get_None.
    done.
  - rewrite filter_cons_False by congruence. by apply IH.
Qed.

(** ** The loop that fills [filtered] *)

Lemma filtered_spec attrs :
  filtered attrs =
  name <$> filter (λ t, negb (broken t || blacklisted t) = true) attrs.
Proof.
  unfold filtered.
  enough (∀ acc,
    fold_left (λ filtered attr,
                 if negb (broken attr || blacklisted attr)
                 then filtered ++ [name attr] else filtered) attrs acc =
    acc ++ (name <$> filter (λ t, negb (broken t || blacklisted t) = true) attrs))
    as Hgen by apply (Hgen []).
  induction attrs as [|t attrs IH]; intros acc; simpl.
  - by rewrite app_nil_r.
  - rewrite IH. destruct (negb (broken t || blacklisted t)) eqn:E.
    + rewrite filter_cons_True by done. csimpl. by rewrite <- app_assoc.
    + rewrite filter_cons_False; [done | by rewrite E].
Qed.

Lemma filtered_elem attrs n :
  n ∈ filtered attrs ↔
  ∃ t, t ∈ attrs ∧ name t = n ∧ broken t = false ∧ blacklisted t = false.
Proof.
  rewrite filtered_spec, list_elem_of_fmap. split.
  - intros (t & -> & Ht). apply list_elem_of_filter in Ht as [Hf Ht].
    exists t. apply negb_true_iff, orb_false_iff in Hf. naive_solver.
  - intros (t & Ht & <- & Hb & Hbl). exists t. split; [done|].
    apply list_elem_of_filter. split; [|done]. by rewrite Hb, Hbl.
Qed.

(** ** De-duplication: claims about [_nix_eval_filter] *)

(** C1 (what the code does at the failing input): every returned target
    holds the one default list as its [aliases]. For the response
    [{a: /p, bb: /p, c: /q}] evaluated in a fresh store, the alias list of
    the returned target [c], whose output path is [/q], therefore contains
    [bb], a name that resolved to [/p]. *)
Theorem C1_aliases_shared_between_paths :
  (∀ json h t, t ∈ (_nix_eval_filter json h).1 → aliases t = default_aliases) ∧
  (view (_nix_eval_filter ex_two_paths initial_heap).2
     <$> (_nix_eval_filter ex_two_paths initial_heap).1) =
  [("a", Some "/p", ["bb"]); ("c", Some "/q", ["bb"])].
Proof.
  split; [|vm_compute; reflexivity].
  intros json h t Ht. by apply nix_eval_filter_elem in Ht as (it & _ & ->).
Qed.

(** C2 (as stated, refuted): in the response [{a: /p, bb: /p, ccc: /p}] the
    results [bb] and [ccc] share a non-null output path, and neither of the
    two survives in the returned list. *)
Lemma C2_pair_without_survivor :
  (ex_item "bb" (Some "/p") ∈ ex_triple) ∧
  (ex_item "ccc" (Some "/p") ∈ ex_triple) ∧
  ("bb" ∉ name <$> (_nix_eval_filter ex_triple initial_heap).1) ∧
  ("ccc" ∉ name <$> (_nix_eval_filter ex_triple initial_heap).1).
Proof.
  split; [right; left|]. split; [do 2 right; left|].
  assert (name <$> (_nix_eval_filter ex_triple initial_heap).1 = ["a"]) as ->
    by (vm_compute; reflexivity).
  split; intros Hin; apply list_elem_of_singleton in Hin; discriminate.
Qed.

(** C2 (amended): among all the results of one batch that share a non-null
    output path [p], exactly one survives in the returned list: the first of
    those whose name has the fewest characters. The name of every other
    result with that output path is in the survivor's alias list. *)
Theorem C2_one_canonical_per_path (json : dict props) (h : heap)
    (item : string * props) (p : string) :
  is_Some (h !! default_aliases) →
  item ∈ json → p_path item.2 = Some p →
  ∃ c, canonical_of json p c ∧
       filter (λ t, path t = Some p) (_nix_eval_filter json h).1 = [new_attr c] ∧
       (item.1 ≠ c.1 →
        item.1 ∈ deref (_nix_eval_filter json h).2 (aliases (new_attr c))).
Proof.
  intros Hh Hin Hp.
  pose proof (filter_loop_inv json h) as [Hkeys Hcanon _].
  pose proof (filter_loop_store_inv json h Hh) as [Halias _ _].
  assert (Hk : p ∈ dict_keys (filter_loop json h).1.1).
  { rewrite Hkeys. apply first_seen_elem, resolved_paths_elem. by exists item. }
  destruct (dict_get (filter_loop json h).1.1 p) as [t|] eqn:Eget;
    [|by apply dict_get_None in Eget].
  destruct (Hcanon _ _ Eget) as (c & Hc & ->).
  exists c. split; [done|]. split.
  - rewrite nix_eval_filter_fst, filter_app, filter_path_values.
    + rewrite Eget.
      assert (filter (λ t, path t = Some p) (new_attr <$> unresolved json) = [])
        as ->; [|done].
      apply unresolved_no_path.
    + apply attr_by_path_NoDup.
    + apply attr_by_path_path.
  - intros Hne. rewrite nix_eval_filter_snd.
    destruct (Halias _ _ _ Hin Hp Eget) as [?|?]; [done|done].
Qed.

Lemma C2_one_canonical_per_path_witness :
  ∃ c, canonical_of ex_pair "/store/xyz" c ∧
       filter (λ t, path t = Some "/store/xyz")
         (_nix_eval_filter ex_pair initial_heap).1 = [new_attr c] ∧
       ("bb" ≠ c.1 →
        "bb" ∈ deref (_nix_eval_filter ex_pair initial_heap).2
                 (aliases (new_attr c))).
Proof.
  apply (C2_one_canonical_per_path ex_pair initial_heap
           (ex_item "bb" (Some "/store/xyz")) "/store/xyz").
  - exists []. reflexivity.
  - right. left.
  - reflexivity.
Defined.

(** C3: the returned list is the canonical targets, one for each non-null
    output path in the order in which the paths are first seen (the order in
    which the keys enter [attr_by_path]), followed by one target for each
    item without an output path, in the order of the response. *)
Theorem C3_output_order (json : dict props) (h : heap) :
  ∃ canon,
    (_nix_eval_filter json h).1 = canon ++ (new_attr <$> unresolved json) ∧
    path <$> canon = Some <$> first_seen (resolved_paths json) ∧
    Forall (λ t, path t = None) (new_attr <$> unresolved json).
Proof.
  exists (dict_values (filter_loop json h).1.1).
  split; [apply nix_eval_filter_fst|]. split.
  - rewrite <- (inv_keys _ _ (filter_loop_inv json h)).
    unfold dict_values, dict_keys. rewrite <- !list_fmap_compose.
    apply Forall_fmap_ext, Forall_forall. intros [k t] Hin. simpl.
    by apply attr_by_path_path in Hin.
  - apply Forall_forall. intros t Ht.
    apply list_elem_of_fmap in Ht as (it & -> & Hit).
    by apply unresolved_path in Hit.
Qed.

(** ** The buildable filter: claims about [filtered] *)

(** C4: a name of the fixed denylist gives a target with
    [blacklisted = true] whatever the response says about it (its [broken]
    value included), every returned target of that name is blacklisted, and
    the name is not in the list [filtered] that [nix_build] computes. *)
Theorem C4_denylisted_never_buildable (json : dict props) (h : heap)
    (n : string) :
  n ∈ blacklist →
  (∀ pr, blacklisted (new_attr (n, pr)) = true) ∧
  (∀ t, t ∈ (_nix_eval_filter json h).1 → name t = n → blacklisted t = true) ∧
  n ∉ filtered (_nix_eval_filter json h).1.
Proof.
  intros Hn.
  assert (Hnew : ∀ pr, blacklisted (new_attr (n, pr)) = true).
  { intros pr. unfold new_attr, Attr_init. simpl. by apply bool_decide_eq_true. }
  assert (Hout : ∀ t, t ∈ (_nix_eval_filter json h).1 → name t = n →
                      blacklisted t = true).
  { intros t Ht Hname.
    apply nix_eval_filter_elem in Ht as ([n' pr] & _ & ->).
    simpl in Hname. subst n'. apply Hnew. }
  split; [done|]. split; [done|].
  intros Hin. apply filtered_elem in Hin as (t & Ht & Hname & _ & Hbl).
  rewrite (Hout t Ht Hname) in Hbl. discriminate.
Qed.

Lemma C4_denylisted_never_buildable_witness :
  (∀ pr, blacklisted (new_attr ("tests.nixos-functions.nixos-test", pr)) = true) ∧
  (∀ t, t ∈ (_nix_eval_filter ex_denylisted initial_heap).1 →
        name t = "tests.nixos-functions.nixos-test" → blacklisted t = true) ∧
  "tests.nixos-functions.nixos-test"
    ∉ filtered (_nix_eval_filter ex_denylisted initial_heap).1.
Proof.
  apply (C4_denylisted_never_buildable ex_denylisted initial_heap
           "tests.nixos-functions.nixos-test").
  vm_compute. reflexivity.
Defined.

(** C5 (as stated, refuted): the response [{c: {broken: false, path: null}}]
    gives a target [c] without an output path, neither broken nor
    blacklisted; its name is in [filtered], and [nix_build] writes it into
    the build description. *)
Lemma C5_no_path_is_buildable :
  (view initial_heap <$> (_nix_eval_filter ex_no_path initial_heap).1) =
    [("c", None, [])] ∧
  filtered (_nix_eval_filter ex_no_path initial_heap).1 = ["c"] ∧
  EvWrite "/cache/build.nix" (shell_expression ex_escape ["c"])
    ∈ trace (ex_nix_build ["c"] EmptyString
               (ex_state [mkCompleted 0 "no_path"])).2.
Proof.
  split; [vm_compute; reflexivity|]. split; [vm_compute; reflexivity|].
  assert (trace (ex_nix_build ["c"] EmptyString
                   (ex_state [mkCompleted 0 "no_path"])).2
          = [EvTempFile "/tmp/tmpattrs";
             EvWrite "/tmp/tmpattrs" "[c]";
             EvRun (eval_cmd "/root" "/tmp/tmpattrs") None;
             EvUnlink "/tmp/tmpattrs";
             EvWrite "/cache/build.nix" (shell_expression ex_escape ["c"]);
             EvRun (build_command 4 "/cache/build.nix" []) None]) as ->
    by (vm_compute; reflexivity).
  do 4 right. left.
Qed.

(** C5 (amended): a missing output path alone does not keep a target from
    being built. For every returned target without an output path, its name
    is in [filtered] exactly when its [broken] and [blacklisted] flags are
    both false. *)
Theorem C5_no_path_buildable_iff_flags (json : dict props) (h : heap)
    (t : Attr) :
  NoDup json.*1 →
  t ∈ (_nix_eval_filter json h).1 → path t = None →
  (name t ∈ filtered (_nix_eval_filter json h).1 ↔
   broken t = false ∧ blacklisted t = false).
Proof.
  intros Hnd Ht Hp. rewrite filtered_elem. split.
  - intros (t' & Ht' & Hname & Hb & Hbl).
    enough (t' = t) by by subst.
    apply nix_eval_filter_elem in Ht as ([n pr] & Hit & ->).
    apply nix_eval_filter_elem in Ht' as ([n' pr'] & Hit' & ->).
    simpl in Hname. subst n'.
    pose proof (dict_elem_get _ _ _ Hnd Hit) as E.
    pose proof (dict_elem_get _ _ _ Hnd Hit') as E'.
    congruence.
  - intros [Hb Hbl]. by exists t.
Qed.

Lemma C5_no_path_buildable_iff_flags_witness :
  name (new_attr (ex_item "c" None))
    ∈ filtered (_nix_eval_filter ex_no_path initial_heap).1 ↔
  broken (new_attr (ex_item "c" None)) = false ∧
  blacklisted (new_attr (ex_item "c" None)) = false.
Proof.
  apply (C5_no_path_buildable_iff_flags ex_no_path initial_heap
           (new_attr (ex_item "c" None))).
  - apply NoDup_singleton.
  - left.
  - reflexivity.
Defined.

(** ** Lines of a text *)

Lemma string_app_assoc (s1 s2 s3 : string) :
  (s1 +:+ s2) +:+ s3 = s1 +:+ (s2 +:+ s3).
Proof.
  induction s1 as [|c s1 IH]; [done|].
  change (String c ((s1 +:+ s2) +:+ s3) = String c (s1 +:+ s2 +:+ s3)).
  by rewrite IH.
Qed.

Lemma string_app_nil_r (s : string) : s +:+ EmptyString = s.
Proof.
  induction s as [|c s IH]; [done|].
  change (String c (s +:+ EmptyString) = String c s). by rewrite IH.
Qed.

(** Every element of [l] is a whole line of the lines [l] joined by line
    breaks, once the text is put between two line breaks. *)
Lemma concat_nl_line (l : list string) (x : string) :
  x ∈ l →
  ∃ pre post,
    nl +:+ String.concat nl l +:+ nl = pre +:+ nl +:+ x +:+ nl +:+ post.
Proof.
  induction l as [|x0 l IH]; intros Hin; [by apply elem_of_nil in Hin|].
  destruct l as [|y l].
  - apply list_elem_of_singleton in Hin as ->.
    exists EmptyString, EmptyString. simpl. by rewrite string_app_nil_r.
  - change (String.concat nl (x0 :: y :: l))
      with (x0 +:+ nl +:+ String.concat nl (y :: l)).
    apply elem_of_cons in Hin as [->|Hin].
    + exists EmptyString, (String.concat nl (y :: l) +:+ nl).
      by rewrite !string_app_assoc.
    + destruct (IH Hin) as (pre & post & Heq).
      exists (nl +:+ x0 +:+ pre), post.
      rewrite !string_app_assoc. by rewrite Heq.
Qed.

(** ** Running programs: [nix_eval], [nix_build] and [was_build] *)

Lemma new_events_app {W} (s : state W) w h evs :
  new_events s (mkState w h (trace s ++ evs)) = evs.
Proof. unfold new_events. simpl. by rewrite drop_app_length. Qed.

Section run_facts.

Context {World : Type} `{External World}.
Variables (ROOT : string) (escape_attr : string → string).
Variables (json_dump : list string → string).
Variables (json_loads : string → option (dict props)).
Variables (shlex_split : string → option (list string)).
Variable cpu_count : nat.

Lemma nix_eval_run attrs s :
  nix_eval ROOT json_dump json_loads attrs s =
  if bool_decide (returncode (eval_proc ROOT s) = 0%Z) then
    match json_loads (stdout (eval_proc ROOT s)) with
    | Some json =>
        (Ok (_nix_eval_filter json (store s)).1,
         mkState (eval_world ROOT s) (_nix_eval_filter json (store s)).2
           (trace s ++ eval_events ROOT json_dump attrs s ++ [EvUnlink (eval_file s)]))
    | None =>
        (Raise ValueError,
         mkState (eval_world ROOT s) (store s)
           (trace s ++ eval_events ROOT json_dump attrs s ++ [EvUnlink (eval_file s)]))
    end
  else
    (Raise CalledProcessError,
     mkState (eval_world ROOT s) (store s)
       (trace s ++ eval_events ROOT json_dump attrs s ++ [EvWarn (eval_warning ROOT s)])).
Proof.
  unfold nix_eval, nix_eval_try, NamedTemporaryFile, eval_proc, eval_world,
    eval_events, eval_warning, eval_file.
  destruct (mktemp (world s)) as [file w1] eqn:Etmp. simpl.
  unfold subprocess_run_check, subprocess_run, mbind, M_bind, bind. simpl.
  destruct (spawn (eval_cmd ROOT file) w1) as [proc w2] eqn:Erun. simpl.
  case_bool_decide as Hrc; simpl.
  - destruct (json_loads (stdout proc)) as [json|]; simpl.
    + unfold with_store. simpl.
      destruct (_nix_eval_filter json (store s)) as [out h']. simpl.
      by rewrite <- !app_assoc.
    + by rewrite <- !app_assoc.
  - by rewrite <- !app_assoc.
Qed.

Lemma nix_build_run attr_names args cache_directory s :
  attr_names ≠ [] →
  nix_build ROOT escape_attr json_dump json_loads shlex_split cpu_count
    attr_names args cache_directory s =
  match nix_eval ROOT json_dump json_loads attr_names s with
  | (Raise e, s1) => (Raise e, s1)
  | (Ok attrs, s1) =>
      if bool_decide (filtered attrs = []) then (Ok attrs, s1)
      else
        let build := joinpath cache_directory "build.nix" in
        let wr := EvWrite build (shell_expression escape_attr (filtered attrs)) in
        match shlex_split args with
        | None =>
            (Raise ValueError,
             mkState (world s1) (store s1) (trace s1 ++ [wr]))
        | Some words =>
            let command := build_command cpu_count build words in
            (Ok attrs,
             mkState (spawn command (world s1)).2 (store s1)
               (trace s1 ++ [wr; EvRun command None]))
        end
  end.
Proof.
  intros Hne. unfold nix_build. rewrite bool_decide_eq_false_2 by done.
  unfold mbind, M_bind, bind.
  destruct (nix_eval _ _ _ attr_names s) as [[attrs|e] s1]; [|done].
  destruct (filtered attrs) as [|n ns] eqn:Ef; simpl; [done|].
  unfold write_shell_expression, emit. simpl.
  destruct (shlex_split args) as [words|]; [|done].
  unfold try_except, sh, subprocess_run_check, subprocess_run, mbind, M_bind, bind.
  simpl.
  destruct (spawn _ (world s1)) as [res w3]. simpl.
  rewrite <- !app_assoc. simpl.
  by case_bool_decide.
Qed.

(** C6: with an empty set of names [nix_build] returns the empty list, and
    all it does is tell the user that nothing changed: the world and the
    store are untouched, and no event of the run leaves the process (no
    program run, no file created, written or removed). *)
Theorem C6_build_nothing (args cache_directory : string) (s : state World) :
  let r := nix_build ROOT escape_attr json_dump json_loads shlex_split
             cpu_count [] args cache_directory s in
  r.1 = Ok [] ∧
  world r.2 = world s ∧ store r.2 = store s ∧
  new_events s r.2 = [EvInfo "Nothing changed"] ∧
  filter (λ e, is_external e = true) (new_events s r.2) = [].
Proof.
  simpl. unfold new_events. simpl. rewrite drop_app_length. done.
Qed.

(** C7 (amended): for every non-empty input whose evaluation succeeds,
    [nix_build] returns the full evaluated list. When [filtered] is empty
    it does so right after the evaluation, with no build description written
    and no build run. Otherwise (the extra arguments being splittable into
    words) it writes the description, runs the build once, and returns the
    full list whatever the exit code of the build is. *)
Theorem C7_build_returns_evaluated_list (attr_names : list string)
    (args cache_directory : string) (s : state World) (json : dict props) :
  attr_names ≠ [] →
  returncode (eval_proc ROOT s) = 0%Z →
  json_loads (stdout (eval_proc ROOT s)) = Some json →
  let attrs := (_nix_eval_filter json (store s)).1 in
  let build := joinpath cache_directory "build.nix" in
  let r := nix_build ROOT escape_attr json_dump json_loads shlex_split
             cpu_count attr_names args cache_directory s in
  (filtered attrs = [] →
   r.1 = Ok attrs ∧
   new_events s r.2 = eval_events ROOT json_dump attr_names s ++ [EvUnlink (eval_file s)]) ∧
  (∀ words, filtered attrs ≠ [] → shlex_split args = Some words →
   r.1 = Ok attrs ∧
   new_events s r.2 =
     eval_events ROOT json_dump attr_names s ++
     [EvUnlink (eval_file s);
      EvWrite build (shell_expression escape_attr (filtered attrs));
      EvRun (build_command cpu_count build words) None]).
Proof.
  intros Hne Hrc Hjson attrs build r. subst r.
  rewrite nix_build_run, nix_eval_run by done.
  rewrite bool_decide_eq_true_2, Hjson by done. fold attrs.
  split.
  - intros Hf. rewrite bool_decide_eq_true_2 by done. simpl.
    by rewrite new_events_app.
  - intros words Hf Hsplit. rewrite bool_decide_eq_false_2, Hsplit by done.
    simpl. rewrite <- !app_assoc, new_events_app. done.
Qed.

(** C9: when the evaluation program exits non-zero, [nix_eval] raises
    [CalledProcessError] to its caller after one single run of the program,
    warns, and does not remove the temporary file. When the program exits
    zero the last thing [nix_eval] does is remove the file, whether the
    output could be parsed or not. *)
Theorem C9_eval_artifact_cleanup (attrs : list string) (s : state World) :
  let r := nix_eval ROOT json_dump json_loads attrs s in
  (returncode (eval_proc ROOT s) ≠ 0%Z →
   r.1 = Raise CalledProcessError ∧
   new_events s r.2 = eval_events ROOT json_dump attrs s ++ [EvWarn (eval_warning ROOT s)] ∧
   filter (λ e, is_unlink e = true) (new_events s r.2) = [] ∧
   filter (λ e, is_run e = true) (new_events s r.2) =
     [EvRun (eval_cmd ROOT (eval_file s)) None]) ∧
  (returncode (eval_proc ROOT s) = 0%Z →
   new_events s r.2 = eval_events ROOT json_dump attrs s ++ [EvUnlink (eval_file s)]).
Proof.
  intros r. subst r. rewrite nix_eval_run. split; intros Hrc.
  - rewrite bool_decide_eq_false_2 by done. simpl.
    by rewrite new_events_app.
  - rewrite bool_decide_eq_true_2 by done.
    destruct (json_loads _); simpl; by rewrite new_events_app.
Qed.

(** C10: the value of [exists] plays no part in the choice of what to
    build. After a successful evaluation, the name of every returned target
    with [broken = false] and [blacklisted = false] is in [filtered]; the
    text that [nix_build] writes to [build.nix] is the header, one line for
    each name of [filtered] and the footer, so that the escaped name, after
    four blanks, is a whole line of it; and when the extra arguments split
    into words, the run ends with the removal of the temporary file, the
    writing of that text and one run of [nix build ... -f build.nix] followed
    by the words. *)
Theorem C10_exists_flag_ignored (attr_names : list string)
    (args cache_directory : string) (s : state World) (json : dict props)
    (t : Attr) :
  attr_names ≠ [] →
  returncode (eval_proc ROOT s) = 0%Z →
  json_loads (stdout (eval_proc ROOT s)) = Some json →
  let attrs := (_nix_eval_filter json (store s)).1 in
  let build := joinpath cache_directory "build.nix" in
  let text :=
    shell_header +:+
    String.concat nl ((λ a, "    " +:+ escape_attr a) <$> filtered attrs) +:+
    shell_footer in
  let argv words :=
    ["nix"; "build"; "--no-link"; "--keep-going";
     "--max-jobs"; pretty cpu_count;
     "--option"; "build-use-sandbox"; "true";
     "-f"; build] ++ words in
  let r := nix_build ROOT escape_attr json_dump json_loads shlex_split
             cpu_count attr_names args cache_directory s in
  t ∈ attrs → broken t = false → blacklisted t = false →
  name t ∈ filtered attrs ∧
  (∃ pre post,
     text = pre +:+ nl +:+ ("    " +:+ escape_attr (name t)) +:+ nl +:+ post) ∧
  EvWrite build text ∈ new_events s r.2 ∧
  (∀ words, shlex_split args = Some words →
            new_events s r.2 =
              eval_events ROOT json_dump attr_names s ++
              [EvUnlink (eval_file s);
               EvWrite build text;
               EvRun (argv words) None]).
Proof.
  intros Hne Hrc Hjson attrs build text argv r Ht Hb Hbl. subst r.
  assert (Hin : name t ∈ filtered attrs).
  { apply filtered_elem. by exists t. }
  split; [done|]. split.
  { assert (Hline : ("    " +:+ escape_attr (name t))
                      ∈ (λ a, "    " +:+ escape_attr a) <$> filtered attrs)
      by by apply (list_elem_of_fmap_2 (λ a, "    " +:+ escape_attr a)).
    destruct (concat_nl_line _ _ Hline) as (pre & post & Heq).
    set (h0 := "{ pkgs ? import ./nixpkgs {} }:" +:+ nl +:+
               "with pkgs;" +:+ nl +:+
               "stdenv.mkDerivation {" +:+ nl +:+
               "  name = " +:+ dquote +:+ "env" +:+ dquote +:+ ";" +:+ nl +:+
               "  buildInputs = [").
    set (f0 := "  ];" +:+ nl +:+
               "  unpackPhase = " +:+ dquote +:+ ":" +:+ dquote +:+ ";" +:+ nl +:+
               "  installPhase = " +:+ dquote +:+ "touch $out" +:+ dquote +:+ ";"
               +:+ nl +:+ "}" +:+ nl).
    assert (Hh : shell_header = h0 +:+ nl) by (vm_compute; reflexivity).
    assert (Hf : shell_footer = nl +:+ f0) by reflexivity.
    assert (Htext : text =
              h0 +:+ (nl +:+ String.concat nl
                 ((λ a, "    " +:+ escape_attr a) <$> filtered attrs) +:+ nl)
              +:+ f0).
    { subst text. rewrite Hh, Hf. by rewrite !string_app_assoc. }
    exists (h0 +:+ pre), (post +:+ f0).
    rewrite Htext, Heq. by rewrite !string_app_assoc. }
  rewrite nix_build_run, nix_eval_run by done.
  rewrite bool_decide_eq_true_2, Hjson by done. fold attrs.
  rewrite bool_decide_eq_false_2
    by (intros Hnil; rewrite Hnil in Hin; by apply elem_of_nil in Hin).
  change (shell_expression escape_attr (filtered attrs)) with text.
  destruct (shlex_split args) as [words|]; simpl;
    rewrite <- !app_assoc, new_events_app.
  - split; [|by intros ? [= <-]].
    rewrite ?elem_of_app, ?elem_of_cons; naive_solver.
  - split; [|done]. rewrite ?elem_of_app, ?elem_of_cons; naive_solver.
Qed.

(** *** Attr.was_build *)

Lemma was_build_repeat_no_path n self s :
  path self = None →
  was_build_repeat n self s = (Ok (replicate n false, self), s).
Proof.
  intros Hp. induction n as [|n IH]; [done|].
  simpl. unfold mbind, M_bind, bind, was_build in *. rewrite Hp. simpl.
  by rewrite IH.
Qed.

Lemma was_build_repeat_cached n self s p b :
  path self = Some p → _path_verified self = Some b →
  was_build_repeat n self s = (Ok (replicate n b, self), s).
Proof.
  intros Hp Hv. induction n as [|n IH]; [done|].
  simpl. unfold mbind, M_bind, bind, was_build in *. rewrite Hp, Hv. simpl.
  by rewrite IH.
Qed.

(** C8: [was_build] returns [False] and leaves everything as it was when
    the target has no output path. For a target with an output path, any
    number [n] of calls in a row return one and the same boolean, run the
    validity check at most once, and leave that boolean in
    [_path_verified]. *)
Theorem C8_was_build_idempotent (self : Attr) (n : nat) (s : state World) :
  (path self = None →
   was_build self s = (Ok (false, self), s) ∧
   was_build_repeat n self s = (Ok (replicate n false, self), s)) ∧
  (∀ p, path self = Some p →
   ∃ b self' s' evs,
     was_build_repeat n self s = (Ok (replicate n b, self'), s') ∧
     trace s' = trace s ++ evs ∧
     length (filter (λ e, is_external e = true) evs) ≤ 1 ∧
     (0 < n → _path_verified self' = Some b)).
Proof.
  split.
  - intros Hp. split; [|by apply was_build_repeat_no_path].
    unfold was_build. by rewrite Hp.
  - intros p Hp. destruct (_path_verified self) as [b|] eqn:Hv.
    + exists b, self, s, []. rewrite app_nil_r.
      split; [by eapply was_build_repeat_cached|]. split; [done|].
      split; [simpl; lia | done].
    + destruct n as [|n].
      * exists false, self, s, []. rewrite app_nil_r. simpl.
        split; [done|]. split; [done|]. split; lia.
      * set (argv := ["nix-store"; "--verify-path"; p]).
        destruct (spawn argv (world s)) as [res w] eqn:Erun.
        set (b := bool_decide (returncode res = 0%Z)).
        exists b, (set_path_verified self (Some b)),
          (mkState w (store s) (trace s ++ [EvRun argv None])),
          [EvRun argv None].
        split; [|split; [done|split; [simpl; lia|done]]].
        simpl. unfold mbind, M_bind, bind, was_build.
        rewrite Hp, Hv. unfold subprocess_run, mbind, M_bind, bind. fold argv.
        rewrite Erun. simpl. fold b.
        by rewrite (was_build_repeat_cached n _ _ p b).
Qed.

End run_facts.

(** ** The program on sample runs *)

(** The evaluation of [{a, bb}], both with output path [/store/xyz]. *)
Example eval_pair :
  (view (_nix_eval_filter ex_pair initial_heap).2
     <$> (_nix_eval_filter ex_pair initial_heap).1) =
  [("a", Some "/store/xyz", ["bb"])].
Proof. vm_compute. reflexivity. Qed.

(** A second batch in the same run starts from the store the first one
    left: the target [c], which has no output path, shows the alias [bb] of
    the batch before. *)
Example eval_second_batch :
  let h := (_nix_eval_filter ex_pair initial_heap).2 in
  (view (_nix_eval_filter ex_no_path h).2 <$> (_nix_eval_filter ex_no_path h).1) =
  [("c", None, ["bb"])].
Proof. vm_compute. reflexivity. Qed.

(** The same response with the longer name first: [a] takes the place of
    [bb]. *)
Example eval_pair_reversed :
  (view (_nix_eval_filter (reverse ex_pair) initial_heap).2
     <$> (_nix_eval_filter (reverse ex_pair) initial_heap).1) =
  [("a", Some "/store/xyz", ["bb"])].
Proof. vm_compute. reflexivity. Qed.

(** A build whose build program exits with code 1. *)
Example build_pair_failing :
  let r := ex_nix_build ["a"; "bb"] "--show-trace"
             (ex_state [mkCompleted 0 "pair"; mkCompleted 1 EmptyString]) in
  (name <$> default [] (match r.1 with Ok l => Some l | Raise _ => None end)) = ["a"] ∧
  filter (λ e, is_run e = true) (trace r.2) =
    [EvRun ["nix"; "eval"; "--json";
            "(import /root/nix/evalAttrs.nix /tmp/tmpattrs)"] None;
     EvRun ["nix"; "build"; "--no-link"; "--keep-going"; "--max-jobs"; "4";
            "--option"; "build-use-sandbox"; "true"; "-f"; "/cache/build.nix";
            "--show-trace"] None].
Proof. vm_compute. split; reflexivity. Qed.

(** C7 (as stated, refuted): the input [{a}] is not empty, the evaluation
    program exits with code 1, and [nix_build] raises instead of returning
    a list. *)
Lemma C7_eval_failure_is_raised :
  ["a"] ≠ @nil string ∧
  (ex_nix_build ["a"] EmptyString (ex_state [mkCompleted 1 EmptyString])).1 =
    Raise CalledProcessError.
Proof. split; [done | vm_compute; reflexivity]. Qed.

Lemma C7_build_returns_evaluated_list_witness :
  let s := ex_state [mkCompleted 0 "pair"; mkCompleted 1 EmptyString] in
  let attrs := (_nix_eval_filter ex_pair initial_heap).1 in
  let r := ex_nix_build ["a"; "bb"] "--show-trace" s in
  r.1 = Ok attrs ∧
  new_events s r.2 =
    eval_events "/root" ex_dump ["a"; "bb"] s ++
    [EvUnlink (eval_file s);
     EvWrite (joinpath "/cache" "build.nix")
       (shell_expression ex_escape (filtered attrs));
     EvRun (build_command 4 (joinpath "/cache" "build.nix") ["--show-trace"])
       None].
Proof.
  intros s attrs r.
  pose proof (C7_build_returns_evaluated_list "/root" ex_escape ex_dump
                ex_loads ex_split 4 ["a"; "bb"] "--show-trace" "/cache" s
                ex_pair) as Hthm.
  destruct (Hthm ltac:(discriminate) eq_refl eq_refl) as [_ Hbuild].
  exact (Hbuild ["--show-trace"] ltac:(vm_compute; discriminate) eq_refl).
Defined.

Lemma C9_eval_artifact_cleanup_witness :
  let failing := ex_state [mkCompleted 1 EmptyString] in
  let passing := ex_state [mkCompleted 0 "pair"] in
  ((ex_nix_eval ["a"; "bb"] failing).1 = Raise CalledProcessError ∧
   filter (λ e, is_unlink e = true)
     (new_events failing (ex_nix_eval ["a"; "bb"] failing).2) = []) ∧
  new_events passing (ex_nix_eval ["a"; "bb"] passing).2 =
    eval_events "/root" ex_dump ["a"; "bb"] passing ++ [EvUnlink "/tmp/tmpattrs"].
Proof.
  intros failing passing. split.
  - destruct (C9_eval_artifact_cleanup "/root" ex_dump ex_loads ["a"; "bb"]
                failing) as [Hfail _].
    destruct (Hfail ltac:(vm_compute; discriminate)) as (Hr & _ & Hu & _).
    exact (conj Hr Hu).
  - destruct (C9_eval_artifact_cleanup "/root" ex_dump ex_loads ["a"; "bb"]
                passing) as [_ Hpass].
    exact (Hpass eq_refl).
Defined.

Lemma C10_exists_flag_ignored_witness :
  let s := ex_state [mkCompleted 0 "missing"] in
  let attrs := (_nix_eval_filter ex_missing initial_heap).1 in
  let r := ex_nix_build ["ghost"] EmptyString s in
  let text :=
    shell_header +:+
    String.concat nl ((λ a, "    " +:+ ex_escape a) <$> filtered attrs) +:+
    shell_footer in
  exists_ (new_attr ("ghost", mkProps false false None None)) = false ∧
  "ghost" ∈ filtered attrs ∧
  (∃ pre post, text = pre +:+ nl +:+ ("    " +:+ "ghost") +:+ nl +:+ post) ∧
  EvWrite (joinpath "/cache" "build.nix") text ∈ new_events s r.2 ∧
  new_events s r.2 =
    eval_events "/root" ex_dump ["ghost"] s ++
    [EvUnlink (eval_file s);
     EvWrite (joinpath "/cache" "build.nix") text;
     EvRun (["nix"; "build"; "--no-link"; "--keep-going";
             "--max-jobs"; pretty 4;
             "--option"; "build-use-sandbox"; "true";
             "-f"; joinpath "/cache" "build.nix"] ++ []) None].
Proof.
  intros s attrs r text. split; [reflexivity|].
  destruct (C10_exists_flag_ignored "/root" ex_escape ex_dump ex_loads
              ex_split 4 ["ghost"] EmptyString "/cache" s ex_missing
              (new_attr ("ghost", mkProps false false None None))
              ltac:(discriminate) eq_refl eq_refl
              ltac:(left) eq_refl eq_refl)
    as (Hin & Hline & Hwrite & Hrun).
  split; [exact Hin|]. split; [exact Hline|]. split; [exact Hwrite|].
  exact (Hrun [] eq_refl).
Defined.

(** The text of the build description in the run above. *)
Example build_description_of_ghost :
  shell_expression ex_escape ["ghost"] =
  "{ pkgs ? import ./nixpkgs {} }:" +:+ nl +:+
  "with pkgs;" +:+ nl +:+
  "stdenv.mkDerivation {" +:+ nl +:+
  "  name = " +:+ dquote +:+ "env" +:+ dquote +:+ ";" +:+ nl +:+
  "  buildInputs = [" +:+ nl +:+
  "    ghost" +:+ nl +:+
  "  ];" +:+ nl +:+
  "  unpackPhase = " +:+ dquote +:+ ":" +:+ dquote +:+ ";" +:+ nl +:+
  "  installPhase = " +:+ dquote +:+ "touch $out" +:+ dquote +:+ ";" +:+ nl +:+
  "}" +:+ nl.
Proof. vm_compute. reflexivity. Qed.

Lemma C8_was_build_idempotent_witness :
  let s := ex_state [mkCompleted 1 EmptyString; mkCompleted 0 EmptyString] in
  let unresolved := new_attr (ex_item "c" None) in
  let resolved := new_attr (ex_item "a" (Some "/p")) in
  (was_build unresolved s = (Ok (false, unresolved), s) ∧
   was_build_repeat 3 unresolved s = (Ok ([false; false; false], unresolved), s)) ∧
  (∃ b self' s' evs,
     was_build_repeat 3 resolved s = (Ok ([b; b; b], self'), s') ∧
     trace s' = trace s ++ evs ∧
     length (filter (λ e, is_external e = true) evs) ≤ 1 ∧
     (0 < 3 → _path_verified self' = Some b)).
Proof.
  intros s unresolved resolved. split.
  - destruct (C8_was_build_idempotent unresolved 3 s) as [Hnone _].
    exact (Hnone eq_refl).
  - destruct (C8_was_build_idempotent resolved 3 s) as [_ Hsome].
    exact (Hsome "/p" eq_refl).
Defined.

(** What the witness of C8 computes: the check runs once and fails, and the
    later calls answer [false] although the check would now succeed. *)
Example was_build_three_times :
  let s := ex_state [mkCompleted 1 EmptyString; mkCompleted 0 EmptyString] in
  let r := was_build_repeat 3 (new_attr (ex_item "a" (Some "/p"))) s in
  (match r.1 with Ok x => Some x.1 | Raise _ => None end) =
    Some [false; false; false] ∧
  trace r.2 = [EvRun ["nix-store"; "--verify-path"; "/p"] None] ∧
  world r.2 = [mkCompleted 0 EmptyString].
Proof. vm_compute. repeat split; reflexivity. Qed.

(** * Further properties of the code *)

(** ** [_nix_eval_filter]: the returned targets *)

Lemma filter_step_store_irrelevant abp brk h h' it :
  (filter_step (abp, brk, h) it).1 = (filter_step (abp, brk, h') it).1.
Proof.
  unfold filter_step.
  destruct (path (new_attr it)); [|done].
  destruct (dict_get abp _); [|done].
  by case_bool_decide.
Qed.

(** X1: which targets [_nix_eval_filter] returns does not depend on the
    store it starts from, that is on what earlier batches appended to the
    alias list. *)
Theorem X1_targets_independent_of_store (json : dict props) (h h' : heap) :
  (_nix_eval_filter json h).1 = (_nix_eval_filter json h').1.
Proof.
  rewrite !nix_eval_filter_fst. f_equal. f_equal. f_equal.
  induction json as [|it l IH] using rev_ind; [done|].
  rewrite !filter_loop_snoc.
  destruct (filter_loop l h) as [[abp brk] h1].
  destruct (filter_loop l h') as [[abp' brk'] h1']. simpl in IH.
  rewrite (filter_step_store_irrelevant abp brk h1 h1').
  assert (abp = abp') as -> by (by injection IH).
  assert (brk = brk') as -> by (by injection IH).
  done.
Qed.

Lemma new_attr_name_inj json it it' :
  NoDup json.*1 → it ∈ json → it' ∈ json →
  name (new_attr it) = name (new_attr it') → it = it'.
Proof.
  destruct it as [n pr], it' as [n' pr']. simpl. intros Hnd Hit Hit' <-.
  pose proof (dict_elem_get _ _ _ Hnd Hit) as E.
  pose proof (dict_elem_get _ _ _ Hnd Hit') as E'.
  congruence.
Qed.

(** X2: every returned target is a fresh, unverified [Attr] built from one
    item of the response, with that item's name and properties, and no two
    returned targets have the same name (the keys of the response being
    distinct). *)
Theorem X2_targets_come_from_response (json : dict props) (h : heap) :
  NoDup json.*1 →
  (∀ t, t ∈ (_nix_eval_filter json h).1 →
        ∃ n pr, (n, pr) ∈ json ∧
                name t = n ∧ exists_ t = p_exists pr ∧
                broken t = p_broken pr ∧ path t = p_path pr ∧
                drv_path t = p_drvPath pr ∧
                blacklisted t = bool_decide (n ∈ blacklist) ∧
                _path_verified t = None) ∧
  NoDup (name <$> (_nix_eval_filter json h).1).
Proof.
  intros Hnd. split.
  - intros t Ht. apply nix_eval_filter_elem in Ht as ([n pr] & Hin & ->).
    by exists n, pr.
  - apply NoDup_fmap_2_strong.
    + intros t t' Ht Ht' Hname.
      apply nix_eval_filter_elem in Ht as (it & Hit & ->).
      apply nix_eval_filter_elem in Ht' as (it' & Hit' & ->).
      f_equal. by eapply new_attr_name_inj.
    + rewrite nix_eval_filter_fst. apply NoDup_app. split; [|split].
      * apply (NoDup_fmap_1 path).
        unfold dict_values. rewrite <- list_fmap_compose.
        assert ((path ∘ snd) <$> (filter_loop json h).1.1 =
                Some <$> dict_keys (filter_loop json h).1.1) as ->.
        { unfold dict_keys. rewrite <- list_fmap_compose.
          apply Forall_fmap_ext, Forall_forall. intros [k t] Hin. simpl.
          by apply attr_by_path_path in Hin. }
        apply NoDup_fmap_2; [apply _ | apply attr_by_path_NoDup].
      * intros t Ht Ht'.
        unfold dict_values in Ht.
        apply list_elem_of_fmap in Ht as ([k t0] & Heq & Hin).
        simpl in Heq. subst t0.
        apply attr_by_path_path in Hin.
        apply list_elem_of_fmap in Ht' as (it & -> & Hit).
        apply unresolved_path in Hit.
        change (path (new_attr it)) with (p_path it.2) in Hin. congruence.
      * apply NoDup_fmap_2_strong.
        -- intros it it' Hit Hit' Heq.
           apply (new_attr_name_inj json); [done | | | by rewrite Heq].
           ++ unfold unresolved in Hit. apply list_elem_of_filter in Hit. tauto.
           ++ unfold unresolved in Hit'. apply list_elem_of_filter in Hit'. tauto.
        -- apply NoDup_filter. by apply (NoDup_fmap_1 fst).
Qed.

Lemma X2_targets_come_from_response_witness :
  (∀ t, t ∈ (_nix_eval_filter ex_two_paths initial_heap).1 →
        ∃ n pr, (n, pr) ∈ ex_two_paths ∧
                name t = n ∧ exists_ t = p_exists pr ∧
                broken t = p_broken pr ∧ path t = p_path pr ∧
                drv_path t = p_drvPath pr ∧
                blacklisted t = bool_decide (n ∈ blacklist) ∧
                _path_verified t = None) ∧
  NoDup (name <$> (_nix_eval_filter ex_two_paths initial_heap).1).
Proof.
  apply (X2_targets_come_from_response ex_two_paths initial_heap).
  vm_compute. repeat constructor; intros Hin;
    repeat (apply elem_of_cons in Hin as [Hin|Hin]; [discriminate|]);
    by apply elem_of_nil in Hin.
Defined.

(** X3: no name of the response is lost. Every item's name is the name of
    a returned target or is in the alias list that the returned targets
    hold. *)
Theorem X3_every_name_accounted_for (json : dict props) (h : heap)
    (it : string * props) :
  is_Some (h !! default_aliases) → it ∈ json →
  it.1 ∈ name <$> (_nix_eval_filter json h).1 ∨
  it.1 ∈ deref (_nix_eval_filter json h).2 default_aliases.
Proof.
  intros Hh Hit. rewrite nix_eval_filter_fst, nix_eval_filter_snd, fmap_app.
  destruct (p_path it.2) as [p|] eqn:Ep.
  - pose proof (filter_loop_inv json h) as [Hkeys _ _].
    pose proof (filter_loop_store_inv json h Hh) as [Halias _ _].
    assert (Hk : p ∈ dict_keys (filter_loop json h).1.1).
    { rewrite Hkeys. apply first_seen_elem, resolved_paths_elem. by exists it. }
    destruct (dict_get (filter_loop json h).1.1 p) as [t|] eqn:Eget;
      [|by apply dict_get_None in Eget].
    destruct (Halias _ _ _ Hit Ep Eget) as [Hn|Hn]; [left | by right].
    apply elem_of_app. left. rewrite Hn.
    apply list_elem_of_fmap_2. unfold dict_values.
    apply (list_elem_of_fmap_2 snd _ (p, t)).
    clear -Eget. induction (filter_loop json h).1.1 as [|[k v] d IH]; [done|].
    simpl in Eget. case_decide; simplify_eq; [left | right; auto].
  - left. apply elem_of_app. right.
    apply (list_elem_of_fmap_2 name _ (new_attr it)), list_elem_of_fmap_2.
    unfold unresolved. by apply list_elem_of_filter.
Qed.

Lemma X3_every_name_accounted_for_witness :
  "bb" ∈ name <$> (_nix_eval_filter ex_pair initial_heap).1 ∨
  "bb" ∈ deref (_nix_eval_filter ex_pair initial_heap).2 default_aliases.
Proof.
  apply (X3_every_name_accounted_for ex_pair initial_heap
           (ex_item "bb" (Some "/store/xyz"))).
  - exists []. reflexivity.
  - right. left.
Defined.

(** ** [_nix_eval_filter]: what it appends to the alias list *)

Lemma length_resolved_unresolved l :
  length l = length (resolved_paths l) + length (unresolved l).
Proof.
  unfold resolved_paths, unresolved.
  induction l as [|it l IH]; [done|]. csimpl.
  destruct (p_path it.2) eqn:E.
  - rewrite filter_cons_False by (by rewrite E). simpl. lia.
  - rewrite filter_cons_True by done. simpl. lia.
Qed.

Lemma filter_loop_appends l h0 :
  is_Some (h0 !! default_aliases) →
  ∃ app,
    deref (filter_loop l h0).2 default_aliases = deref h0 default_aliases ++ app ∧
    length app + length (first_seen (resolved_paths l)) =
      length (resolved_paths l) ∧
    (∀ n, n ∈ app → ∃ it, it ∈ l ∧ it.1 = n ∧ is_Some (p_path it.2)).
Proof.
  intros Hh. induction l as [|it l IH] using rev_ind.
  { exists []. simpl. rewrite app_nil_r. split; [done|]. split; [done|].
    intros n Hn. by apply elem_of_nil in Hn. }
  destruct IH as (app & Happ & Hlen & Hfrom).
  pose proof (filter_loop_inv l h0) as [Hkeys Hcanon _].
  pose proof (filter_loop_store_inv l h0 Hh) as [_ Halloc _].
  rewrite filter_loop_snoc.
  destruct (filter_loop l h0) as [[abp brk] h]. unfold_step it.
  assert (Hweak : ∀ n, n ∈ app →
            ∃ x, x ∈ l ++ [it] ∧ x.1 = n ∧ is_Some (p_path x.2)).
  { intros n Hn. destruct (Hfrom n Hn) as (x & Hx & ?).
    exists x. split; [|done]. apply elem_of_app. by left. }
  rewrite resolved_paths_snoc.
  destruct (p_path it.2) as [q|] eqn:Eq.
  - rewrite first_seen_snoc.
    destruct (dict_get abp q) as [other|] eqn:Eget.
    + destruct (Hcanon _ _ Eget) as (c & Hc & ->). unfold_other c.
      assert (Hq : q ∈ resolved_paths l).
      { apply resolved_paths_elem. exists c. split.
        - by eapply canonical_of_elem.
        - by destruct Hc as (? & ? & _ & ? & _). }
      rewrite decide_True by done. rewrite length_app. simpl.
      case_bool_decide as Hlt; simpl; rewrite deref_list_append by done.
      * exists (app ++ [c.1]). rewrite Happ, <- app_assoc, length_app. simpl.
        split; [done|]. split; [lia|].
        intros n Hn. apply elem_of_app in Hn as [Hn|Hn]; [by apply Hweak|].
        apply list_elem_of_singleton in Hn as ->. exists c.
        split; [apply elem_of_app; left; by eapply canonical_of_elem|].
        split; [done|]. destruct Hc as (? & ? & _ & Hp & _). by rewrite Hp.
      * exists (app ++ [it.1]). rewrite Happ, <- app_assoc, length_app. simpl.
        split; [done|]. split; [lia|].
        intros n Hn. apply elem_of_app in Hn as [Hn|Hn]; [by apply Hweak|].
        apply list_elem_of_singleton in Hn as ->. exists it.
        split; [apply elem_of_app; right; left|].
        split; [done|]. by rewrite Eq.
    + assert (Hq : q ∉ resolved_paths l).
      { intros Hq. apply dict_get_None in Eget. apply Eget.
        rewrite Hkeys. by apply first_seen_elem. }
      rewrite decide_False by done. simpl.
      exists app. rewrite !length_app. simpl. split; [done|]. split; [lia|done].
  - simpl. rewrite app_nil_r. by exists app.
Qed.

(** X4: a batch only appends to the default alias list and touches no
    other list object. What the list held before stays in front; one name is
    appended for each item that does not yield a returned target, and each
    appended name is the name of an item of this response that has an output
    path. *)
Theorem X4_alias_list_append_only (json : dict props) (h : heap) :
  is_Some (h !! default_aliases) →
  ∃ app,
    deref (_nix_eval_filter json h).2 default_aliases =
      deref h default_aliases ++ app ∧
    length (_nix_eval_filter json h).1 + length app = length json ∧
    (∀ n, n ∈ app → ∃ it, it ∈ json ∧ it.1 = n ∧ is_Some (p_path it.2)) ∧
    (∀ l, l ≠ default_aliases → (_nix_eval_filter json h).2 !! l = h !! l).
Proof.
  intros Hh. destruct (filter_loop_appends json h Hh) as (app & Happ & Hlen & Hfrom).
  exists app. rewrite nix_eval_filter_snd, nix_eval_filter_fst.
  split; [done|]. split; [|split; [done|]].
  - rewrite length_app, !length_fmap.
    unfold dict_values. rewrite length_fmap.
    pose proof (inv_keys _ _ (filter_loop_inv json h)) as Hkeys.
    apply (f_equal length) in Hkeys. unfold dict_keys in Hkeys.
    rewrite length_fmap in Hkeys.
    rewrite (length_resolved_unresolved json). lia.
  - apply (inv_frame _ _ _ (filter_loop_store_inv json h Hh)).
Qed.

Lemma X4_alias_list_append_only_witness :
  ∃ app,
    deref (_nix_eval_filter ex_triple initial_heap).2 default_aliases =
      deref initial_heap default_aliases ++ app ∧
    length (_nix_eval_filter ex_triple initial_heap).1 + length app =
      length ex_triple ∧
    (∀ n, n ∈ app → ∃ it, it ∈ ex_triple ∧ it.1 = n ∧ is_Some (p_path it.2)) ∧
    (∀ l, l ≠ default_aliases →
          (_nix_eval_filter ex_triple initial_heap).2 !! l = initial_heap !! l).
Proof.
  apply (X4_alias_list_append_only ex_triple initial_heap).
  exists []. reflexivity.
Defined.

(** ** [_nix_eval_filter]: a response without shared output paths *)

Lemma dict_set_absent {V} (d : dict V) (k : string) (v : V) :
  k ∉ dict_keys d → dict_set d k v = d ++ [(k, v)].
Proof.
  unfold dict_keys. induction d as [|[k' v'] d IH]; csimpl; [done|].
  rewrite not_elem_of_cons. intros [Hne Hd].
  rewrite decide_False by done. by rewrite IH.
Qed.

Lemma keyed_keys l : dict_keys (keyed l) = resolved_paths l.
Proof.
  unfold dict_keys, keyed, resolved_paths.
  induction l as [|it l IH]; [done|]. csimpl.
  destruct (p_path it.2); csimpl; by rewrite IH.
Qed.

Lemma keyed_values l : dict_values (keyed l) = new_attr <$> resolved l.
Proof.
  unfold dict_values, keyed, resolved.
  induction l as [|it l IH]; [done|]. csimpl.
  destruct (p_path it.2) eqn:E; csimpl.
  - rewrite filter_cons_True by (by rewrite E). csimpl. by rewrite IH.
  - rewrite filter_cons_False by (rewrite E; by intros [? ?]). done.
Qed.

Lemma keyed_snoc l it :
  keyed (l ++ [it]) =
  keyed l ++ match p_path it.2 with
             | Some p => [(p, new_attr it)]
             | None => []
             end.
Proof. unfold keyed. rewrite omap_app. simpl. by destruct (p_path it.2). Qed.

Lemma filter_loop_no_sharing l h :
  NoDup (resolved_paths l) →
  filter_loop l h = (keyed l, new_attr <$> unresolved l, h).
Proof.
  induction l as [|it l IH] using rev_ind; intros Hnd; [done|].
  rewrite resolved_paths_snoc in Hnd. apply NoDup_app in Hnd as (Hl & Hsep & _).
  rewrite filter_loop_snoc, IH by done. unfold_step it.
  rewrite keyed_snoc, unresolved_snoc.
  destruct (p_path it.2) as [q|] eqn:Eq.
  - assert (Hq : q ∉ dict_keys (keyed l)).
    { rewrite keyed_keys. intros Hin. apply (Hsep q Hin). left. }
    assert (dict_get (keyed l) q = None) as -> by by apply dict_get_None.
    by rewrite dict_set_absent, app_nil_r.
  - by rewrite app_nil_r, fmap_app.
Qed.

(** X5: when no two items of the response share an output path, nothing
    is merged: the store is left as it was, and the returned list is one
    target for each item, those with an output path first and those without
    after them, each group in the order of the response. *)
Theorem X5_no_sharing_no_merge (json : dict props) (h : heap) :
  NoDup (resolved_paths json) →
  _nix_eval_filter json h =
  ((new_attr <$> resolved json) ++ (new_attr <$> unresolved json), h).
Proof.
  intros Hnd. unfold _nix_eval_filter.
  rewrite filter_loop_no_sharing by done. by rewrite keyed_values.
Qed.

Lemma X5_no_sharing_no_merge_witness :
  _nix_eval_filter ex_denylisted initial_heap =
  ((new_attr <$> resolved ex_denylisted) ++
   (new_attr <$> unresolved ex_denylisted), initial_heap).
Proof.
  apply (X5_no_sharing_no_merge ex_denylisted initial_heap).
  vm_compute. repeat constructor; intros Hin;
    repeat (apply elem_of_cons in Hin as [Hin|Hin]; [discriminate|]);
    by apply elem_of_nil in Hin.
Defined.

(** ** [nix_build]: the list [filtered] *)

(** X6: the loop of [nix_build] computes the comprehension
    [[a.name for a in attrs if not (a.broken or a.blacklisted)]]: the names
    kept are in the order of [attrs], so [filtered] is a subsequence of the
    names of [attrs], and the loop over a concatenation is the concatenation
    of the loops. *)
Theorem X6_filtered_is_ordered_selection (attrs attrs' : list Attr) :
  filtered attrs =
    name <$> filter (λ a, broken a = false ∧ blacklisted a = false) attrs ∧
  sublist (filtered attrs) (name <$> attrs) ∧
  filtered (attrs ++ attrs') = filtered attrs ++ filtered attrs'.
Proof.
  assert (Hspec : ∀ l, filtered l =
            name <$> filter (λ a, broken a = false ∧ blacklisted a = false) l).
  { intros l. rewrite filtered_spec. f_equal. apply list_filter_iff.
    intros a. rewrite negb_true_iff, orb_false_iff. done. }
  split; [apply Hspec|]. split.
  - rewrite Hspec. apply fmap_sublist, sublist_filter.
  - by rewrite !Hspec, filter_app, fmap_app.
Qed.

(** ** [nix_shell], [nix_eval] and [nix_build]: errors and side effects *)

Section more_run_facts.

Context {World : Type} `{External World}.
Variables (ROOT : string) (escape_attr : string → string).
Variables (json_dump : list string → string).
Variables (json_loads : string → option (dict props)).
Variables (shlex_split : string → option (list string)).
Variable cpu_count : nat.

Lemma sh_run (command : list string) (cwd : option string) (s : state World) :
  sh command cwd s =
  (if bool_decide (returncode (spawn command (world s)).1 = 0%Z)
   then Ok tt else Raise CalledProcessError,
   mkState (spawn command (world s)).2 (store s)
     (trace s ++ [EvRun command cwd])).
Proof.
  unfold sh, subprocess_run_check, subprocess_run.
  unfold mbind, M_bind, bind.
  destruct (spawn command (world s)) as [res w]. simpl.
  by case_bool_decide.
Qed.

(** X7: [nix_shell] with no attributes only tells the user so. With
    attributes it writes [shell.nix] in the cache directory and then runs
    [nix-shell] on it once, in that directory; unlike the build, a non-zero
    exit of the shell is raised to the caller. The store is never touched. *)
Theorem X7_nix_shell (attrs : list string) (cache_directory : string)
    (s : state World) :
  let r := nix_shell escape_attr attrs cache_directory s in
  let shell := joinpath cache_directory "shell.nix" in
  let argv := ["nix-shell"; shell] in
  store r.2 = store s ∧
  (attrs = [] →
   r.1 = Ok tt ∧ world r.2 = world s ∧
   new_events s r.2 =
     [EvInfo "No packages were successfully build, skip nix-shell"]) ∧
  (attrs ≠ [] →
   new_events s r.2 =
     [EvWrite shell (shell_expression escape_attr attrs);
      EvRun argv (Some cache_directory)] ∧
   r.1 = if bool_decide (returncode (spawn argv (world s)).1 = 0%Z)
         then Ok tt else Raise CalledProcessError).
Proof.
  intros r shell argv. subst r. unfold nix_shell.
  destruct attrs as [|a attrs]; simpl.
  - unfold new_events. simpl. rewrite drop_app_length. by split; [|split].
  - unfold mbind, M_bind, bind, write_shell_expression, emit.
    rewrite sh_run. simpl. fold shell. fold argv.
    split; [done|]. split; [done|]. intros _.
    unfold new_events. simpl. by rewrite <- app_assoc, drop_app_length.
Qed.

Lemma all_unbuildable_filtered json h :
  (∀ it, it ∈ json → p_broken it.2 = true ∨ it.1 ∈ blacklist) →
  filtered (_nix_eval_filter json h).1 = [].
Proof.
  intros Hall. destruct (filtered _) as [|n ns] eqn:E; [done|].
  assert (Hn : n ∈ filtered (_nix_eval_filter json h).1) by (rewrite E; left).
  apply filtered_elem in Hn as (t & Ht & _ & Hb & Hbl).
  apply nix_eval_filter_elem in Ht as (it & Hit & ->).
  destruct (Hall it Hit) as [Hbr|Hden].
  - change (broken (new_attr it)) with (p_broken it.2) in Hb. congruence.
  - change (blacklisted (new_attr it)) with (bool_decide (it.1 ∈ blacklist)) in Hbl.
    by rewrite bool_decide_eq_true_2 in Hbl.
Qed.

(** X8: when the evaluation marks every requested name broken or the name
    is on the denylist, [nix_build] evaluates, writes no build description,
    runs no build, and returns all the targets. *)
Theorem X8_nothing_buildable_no_build (attr_names : list string)
    (args cache_directory : string) (s : state World) (json : dict props) :
  attr_names ≠ [] →
  returncode (eval_proc ROOT s) = 0%Z →
  json_loads (stdout (eval_proc ROOT s)) = Some json →
  (∀ it, it ∈ json → p_broken it.2 = true ∨ it.1 ∈ blacklist) →
  let r := nix_build ROOT escape_attr json_dump json_loads shlex_split
             cpu_count attr_names args cache_directory s in
  r.1 = Ok (_nix_eval_filter json (store s)).1 ∧
  new_events s r.2 =
    eval_events ROOT json_dump attr_names s ++ [EvUnlink (eval_file s)].
Proof.
  intros Hne Hrc Hjson Hall r. subst r.
  rewrite nix_build_run, nix_eval_run by done.
  rewrite bool_decide_eq_true_2, Hjson by done.
  rewrite bool_decide_eq_true_2 by by apply all_unbuildable_filtered.
  simpl. by rewrite new_events_app.
Qed.

(** X9: when the extra arguments cannot be split into words, [nix_build]
    raises [ValueError] after the evaluation and after the build description
    has been written, and before any build is run. *)
Theorem X9_unsplittable_args (attr_names : list string)
    (args cache_directory : string) (s : state World) (json : dict props) :
  attr_names ≠ [] →
  returncode (eval_proc ROOT s) = 0%Z →
  json_loads (stdout (eval_proc ROOT s)) = Some json →
  filtered (_nix_eval_filter json (store s)).1 ≠ [] →
  shlex_split args = None →
  let r := nix_build ROOT escape_attr json_dump json_loads shlex_split
             cpu_count attr_names args cache_directory s in
  r.1 = Raise ValueError ∧
  new_events s r.2 =
    eval_events ROOT json_dump attr_names s ++
    [EvUnlink (eval_file s);
     EvWrite (joinpath cache_directory "build.nix")
       (shell_expression escape_attr
          (filtered (_nix_eval_filter json (store s)).1))].
Proof.
  intros Hne Hrc Hjson Hf Hsplit r. subst r.
  rewrite nix_build_run, nix_eval_run by done.
  rewrite bool_decide_eq_true_2, Hjson by done.
  rewrite bool_decide_eq_false_2, Hsplit by done.
  simpl. by rewrite <- !app_assoc, new_events_app.
Qed.

(** X10: the only [CalledProcessError] that leaves [nix_build] is the one
    of the evaluation: for a non-empty input [nix_build] raises it exactly
    when the evaluation program exits non-zero, and then nothing was built
    or written but the temporary file, which is kept, and the store is as
    before. *)
Theorem X10_only_eval_failure_escapes (attr_names : list string)
    (args cache_directory : string) (s : state World) :
  attr_names ≠ [] →
  let r := nix_build ROOT escape_attr json_dump json_loads shlex_split
             cpu_count attr_names args cache_directory s in
  (r.1 = Raise CalledProcessError ↔ returncode (eval_proc ROOT s) ≠ 0%Z) ∧
  (returncode (eval_proc ROOT s) ≠ 0%Z →
   store r.2 = store s ∧
   new_events s r.2 =
     eval_events ROOT json_dump attr_names s ++ [EvWarn (eval_warning ROOT s)]).
Proof.
  intros Hne r. subst r. rewrite nix_build_run, nix_eval_run by done.
  case_bool_decide as Hrc.
  - split; [|done]. split; [|done].
    destruct (json_loads _); [|done].
    case_bool_decide; [done|]. by destruct (shlex_split args).
  - split; [done|]. intros _. simpl. by rewrite new_events_app.
Qed.

(** The shapes the events of one call of [nix_build] can have. *)
Lemma nix_build_events (attr_names : list string)
    (args cache_directory : string) (s : state World) :
  let build := joinpath cache_directory "build.nix" in
  let ev := eval_events ROOT json_dump attr_names s in
  ∃ res w h evs,
    nix_build ROOT escape_attr json_dump json_loads shlex_split cpu_count
      attr_names args cache_directory s =
      (res, mkState w h (trace s ++ evs)) ∧
    (evs = [EvInfo "Nothing changed"] ∨
     evs = ev ++ [EvWarn (eval_warning ROOT s)] ∨
     evs = ev ++ [EvUnlink (eval_file s)] ∨
     (∃ text, evs = ev ++ [EvUnlink (eval_file s); EvWrite build text]) ∨
     (∃ text cmd, evs = ev ++ [EvUnlink (eval_file s); EvWrite build text;
                               EvRun cmd None])).
Proof.
  intros build ev.
  destruct attr_names as [|a names].
  { eexists _, _, _, _. split; [reflexivity|]. by left. }
  rewrite nix_build_run, nix_eval_run by done. fold ev.
  case_bool_decide as Hrc.
  - destruct (json_loads _) as [json|].
    + case_bool_decide as Hf.
      * eexists _, _, _, _. split; [reflexivity|]. right. right. by left.
      * destruct (shlex_split args) as [words|]; simpl; fold build.
        -- eexists _, _, _, _. rewrite <- !app_assoc.
           split; [reflexivity|]. do 4 right. by eexists _, _.
        -- eexists _, _, _, _. rewrite <- !app_assoc.
           split; [reflexivity|]. do 3 right. left. by eexists.
    + eexists _, _, _, _. split; [reflexivity|]. right. right. by left.
  - eexists _, _, _, _. split; [reflexivity|]. right. by left.
Qed.

(** X11: what a call of [nix_build] can do outside the process, whatever
    its input and whatever the programs answer: it only adds to the trace,
    it removes no file but the temporary file of the evaluation, it writes
    no file but that one and [build.nix] in the cache directory, and it runs
    at most two programs. *)
Theorem X11_build_footprint (attr_names : list string)
    (args cache_directory : string) (s : state World) :
  let r := nix_build ROOT escape_attr json_dump json_loads shlex_split
             cpu_count attr_names args cache_directory s in
  let evs := new_events s r.2 in
  trace r.2 = trace s ++ evs ∧
  (∀ f, EvUnlink f ∈ evs → f = eval_file s) ∧
  (∀ f text, EvWrite f text ∈ evs →
             f = eval_file s ∨ f = joinpath cache_directory "build.nix") ∧
  length (filter (λ e, is_run e = true) evs) ≤ 2.
Proof.
  intros r evs. subst evs r.
  destruct (nix_build_events attr_names args cache_directory s)
    as (res & w & h & evs & -> & Hevs).
  simpl. rewrite new_events_app. split; [done|].
  unfold eval_events in Hevs.
  destruct Hevs as [->|[->|[->|[[text ->]|(text & cmd & ->)]]]]; simpl;
    (split; [|split; [|simpl; lia]]);
    intros *; rewrite ?elem_of_cons, ?elem_of_nil; naive_solver.
Qed.

(** X12: [nix_eval] returns a list exactly when the evaluation program
    exits with code 0 and its output parses to a response (every item with
    its four fields); the list is then what [_nix_eval_filter] makes of that
    response, and the store is the one [_nix_eval_filter] leaves. When the
    program exits non-zero, [CalledProcessError] is raised and the store is
    as it was before the call. *)
Theorem X12_eval_returns_filtered_response (attrs : list string)
    (s : state World) :
  let r := nix_eval ROOT json_dump json_loads attrs s in
  (∀ out, r.1 = Ok out ↔
          returncode (eval_proc ROOT s) = 0%Z ∧
          ∃ json, json_loads (stdout (eval_proc ROOT s)) = Some json ∧
                  out = (_nix_eval_filter json (store s)).1) ∧
  (∀ json, returncode (eval_proc ROOT s) = 0%Z →
           json_loads (stdout (eval_proc ROOT s)) = Some json →
           store r.2 = (_nix_eval_filter json (store s)).2) ∧
  (returncode (eval_proc ROOT s) ≠ 0%Z →
   r.1 = Raise CalledProcessError ∧ store r.2 = store s).
Proof.
  intros r. subst r. rewrite nix_eval_run.
  case_bool_decide as Hrc.
  - destruct (json_loads _) as [json|] eqn:Hjson; simpl.
    + split; [|split; [|done]].
      * intros out. split.
        -- intros [= <-]. split; [done|]. by exists json.
        -- intros (_ & json' & [= <-] & ->). done.
      * by intros json' _ [= <-].
    + split; [|split; [|done]].
      * intros out. split; [done|]. by intros (_ & json' & ? & _).
      * by intros json' _ ?.
  - simpl. split; [|split; [|done]].
    + intros out. split; [done|]. by intros [? _].
    + by intros json ?.
Qed.

(** *** Attr.was_build *)

Lemma was_build_keeps_target self s :
  ∃ b self' s',
    was_build self s = (Ok (b, self'), s') ∧
    set_path_verified self' None = set_path_verified self None ∧
    store s' = store s.
Proof.
  unfold was_build. destruct (path self) as [p|]; [|by eexists _, _, _].
  destruct (_path_verified self) as [b|]; [by eexists _, _, _|].
  unfold mbind, M_bind, bind, subprocess_run.
  destruct (spawn _ (world s)) as [res w]. simpl. by eexists _, _, _.
Qed.

Lemma was_build_repeat_keeps_target n self s :
  ∃ bs self' s',
    was_build_repeat n self s = (Ok (bs, self'), s') ∧
    length bs = n ∧
    set_path_verified self' None = set_path_verified self None ∧
    store s' = store s.
Proof.
  revert self s. induction n as [|n IH]; intros self s.
  - by exists [], self, s.
  - destruct (was_build_keeps_target self s) as (b & self1 & s1 & Hrun & Hsame & Hst).
    destruct (IH self1 s1) as (bs & self2 & s2 & Hrun2 & Hlen & Hsame2 & Hst2).
    exists (b :: bs), self2, s2. simpl. unfold mbind, M_bind, bind.
    rewrite Hrun. simpl. rewrite Hrun2. simpl.
    split; [done|]. split; [by rewrite Hlen|].
    split; congruence.
Qed.

(** X13: when [n] calls of [was_build] in a row have returned (each store
    check that was needed ran to completion), they gave [n] answers and
    changed nothing of the target but [_path_verified] and nothing of the
    store. *)
Theorem X13_was_build_keeps_target (n : nat) (self self' : Attr)
    (s s' : state World) (bs : list bool) :
  was_build_repeat n self s = (Ok (bs, self'), s') →
  length bs = n ∧
  name self' = name self ∧ exists_ self' = exists_ self ∧
  broken self' = broken self ∧ blacklisted self' = blacklisted self ∧
  path self' = path self ∧ drv_path self' = drv_path self ∧
  aliases self' = aliases self ∧
  store s' = store s.
Proof.
  intros Hrun.
  destruct (was_build_repeat_keeps_target n self s)
    as (bs0 & self0 & s0 & Hrun0 & Hlen & Hsame & Hst).
  rewrite Hrun in Hrun0. injection Hrun0 as <- <- <-.
  split; [done|]. injection Hsame as -> -> -> -> -> -> ->. done.
Qed.

(** X14: the first [was_build] on a target that comes straight from an
    evaluation and has an output path never answers from the cache: it runs
    [nix-store --verify-path] on the target's own output path, answers
    whether the exit code was 0, and keeps the answer in the target. *)
Theorem X14_fresh_target_is_checked (json : dict props) (h : heap)
    (t : Attr) (p : string) (s : state World) :
  t ∈ (_nix_eval_filter json h).1 → path t = Some p →
  let argv := ["nix-store"; "--verify-path"; p] in
  let b := bool_decide (returncode (spawn argv (world s)).1 = 0%Z) in
  was_build t s =
  (Ok (b, set_path_verified t (Some b)),
   mkState (spawn argv (world s)).2 (store s) (trace s ++ [EvRun argv None])).
Proof.
  intros Ht Hp argv b. subst b.
  apply nix_eval_filter_elem in Ht as (it & _ & ->).
  unfold was_build. rewrite Hp. simpl.
  unfold mbind, M_bind, bind, subprocess_run. fold argv.
  by destruct (spawn argv (world s)) as [res w].
Qed.

End more_run_facts.

(** ** Attr.is_test *)

Lemma prefix_app (s1 s2 : string) :
  String.prefix s1 s2 = true ↔ ∃ rest, s2 = s1 +:+ rest.
Proof.
  revert s2. induction s1 as [|a s1 IH]; intros s2.
  - split; [intros _; by exists s2 | intros _; by destruct s2].
  - destruct s2 as [|b s2]; simpl.
    + split; [done|]. intros [rest Hr]. discriminate Hr.
    + change (∃ rest, String b s2 = String a s1 +:+ rest)
        with (∃ rest, String b s2 = String a (s1 +:+ rest)).
      destruct (Ascii.ascii_dec a b) as [->|Hne].
      * rewrite IH. split; intros [rest Hr]; exists rest.
        -- by rewrite Hr.
        -- by injection Hr.
      * split; [done|]. intros [rest Hr]. injection Hr as ? ?. congruence.
Qed.

(** X15: [is_test] holds exactly of the targets whose name is
    [nixosTests] followed by anything (nothing included); the comparison is
    by character, at the start of the name. *)
Theorem X15_is_test_prefix (self : Attr) :
  is_test self = true ↔ ∃ rest, name self = "nixosTests" +:+ rest.
Proof. unfold is_test. apply prefix_app. Qed.

(** ** write_shell_expression *)

Lemma string_app_length (s1 s2 : string) :
  String.length (s1 +:+ s2) = String.length s1 + String.length s2.
Proof.
  induction s1 as [|c s1 IH]; [done|].
  change (S (String.length (s1 +:+ s2)) = S (String.length s1 + String.length s2)).
  by rewrite IH.
Qed.

Lemma string_app_inj_length (s s' t t' : string) :
  String.length s = String.length s' → s +:+ t = s' +:+ t' → s = s' ∧ t = t'.
Proof.
  revert s'. induction s as [|c s IH]; intros [|c' s']; simpl; try done.
  intros [= Hlen] Happ.
  change (String c (s +:+ t) = String c' (s' +:+ t')) in Happ.
  injection Happ as -> Happ. destruct (IH _ Hlen Happ) as [-> ->]. done.
Qed.

Lemma string_app_cancel_r (s s' f : string) : s +:+ f = s' +:+ f → s = s'.
Proof.
  intros Happ. apply (string_app_inj_length s s' f f); [|done].
  apply (f_equal String.length) in Happ. rewrite !string_app_length in Happ. lia.
Qed.

Lemma nl_free_app_nl (x r : string) : nl_free (x +:+ nl +:+ r) = false.
Proof.
  induction x as [|c x IH]; [done|].
  change (negb (Ascii.eqb c "010") && nl_free (x +:+ nl +:+ r) = false).
  rewrite IH. apply andb_false_r.
Qed.

(** A text is cut at its first line break in one way only. *)
Lemma first_line_inj (x x' r r' : string) :
  nl_free x = true → nl_free x' = true →
  x +:+ nl +:+ r = x' +:+ nl +:+ r' → x = x' ∧ r = r'.
Proof.
  revert x'. induction x as [|c x IH]; intros [|c' x'] Hx Hx' Heq.
  - by injection Heq.
  - change (String "010" r = String c' (x' +:+ nl +:+ r')) in Heq.
    injection Heq as <- _. discriminate Hx'.
  - change (String c (x +:+ nl +:+ r) = String "010" r') in Heq.
    injection Heq as -> _. discriminate Hx.
  - change (String c (x +:+ nl +:+ r) = String c' (x' +:+ nl +:+ r')) in Heq.
    injection Heq as -> Heq.
    simpl in Hx, Hx'. apply andb_true_iff in Hx as [_ Hx], Hx' as [_ Hx'].
    destruct (IH _ Hx Hx' Heq) as [-> ->]. done.
Qed.

Lemma concat_nl_cons (x y : string) (l : list string) :
  String.concat nl (x :: y :: l) = x +:+ nl +:+ String.concat nl (y :: l).
Proof. done. Qed.

(** Lines that are not empty and hold no line break can be read back from
    their concatenation. *)
Lemma concat_nl_inj (ls ls' : list string) :
  Forall (λ x, nl_free x = true ∧ x ≠ EmptyString) ls →
  Forall (λ x, nl_free x = true ∧ x ≠ EmptyString) ls' →
  String.concat nl ls = String.concat nl ls' → ls = ls'.
Proof.
  intros Hls. revert ls'.
  induction Hls as [|x l [Hx Hxe] Hl IH]; intros ls' Hls' Heq.
  - destruct Hls' as [|x' l' [Hx' Hxe'] Hl']; [done|].
    destruct l' as [|y' l'].
    + simpl in Heq. congruence.
    + rewrite concat_nl_cons in Heq. destruct x'; [done|discriminate Heq].
  - destruct Hls' as [|x' l' [Hx' Hxe'] Hl'].
    + destruct l as [|y l].
      * simpl in Heq. congruence.
      * rewrite concat_nl_cons in Heq. destruct x; [done|discriminate Heq].
    + destruct l as [|y l], l' as [|y' l'].
      * simpl in Heq. by subst.
      * rewrite concat_nl_cons in Heq. simpl in Heq. subst x.
        by rewrite nl_free_app_nl in Hx.
      * rewrite concat_nl_cons in Heq. simpl in Heq. subst x'.
        by rewrite nl_free_app_nl in Hx'.
      * rewrite !concat_nl_cons in Heq.
        destruct (first_line_inj _ _ _ _ Hx Hx' Heq) as [-> Hrest].
        f_equal. by apply IH.
Qed.

(** X16: the text that [write_shell_expression] writes determines the
    list of attributes: two lists with the same text are equal, as long as
    [escape_attr] tells attributes apart and puts no line break into its
    result. *)
Theorem X16_description_determines_attrs (escape_attr : string → string)
    (attrs attrs' : list string) :
  Inj (=) (=) escape_attr →
  (∀ a, a ∈ attrs ++ attrs' → nl_free (escape_attr a) = true) →
  shell_expression escape_attr attrs = shell_expression escape_attr attrs' →
  attrs = attrs'.
Proof.
  intros Hinj Hnl Heq. unfold shell_expression in Heq.
  apply (inj (String.app shell_header)) in Heq.
  apply string_app_cancel_r in Heq.
  apply concat_nl_inj in Heq.
  - unfold shell_lines in Heq.
    assert (Inj (=) (=) (λ a, "    " +:+ escape_attr a)).
    { intros a a' Ha. by apply (inj (String.app "    ")), Hinj in Ha. }
    by apply (inj (fmap _)) in Heq.
  - apply Forall_fmap, Forall_forall. intros a Ha. simpl. split; [|done].
    apply Hnl, elem_of_app. by left.
  - apply Forall_fmap, Forall_forall. intros a Ha. simpl. split; [|done].
    apply Hnl, elem_of_app. by right.
Qed.

(** ** Further sample runs *)

Lemma X7_nix_shell_witness :
  let s := ex_state [mkCompleted 1 EmptyString] in
  ((nix_shell ex_escape [] "/cache" s).1 = Ok tt ∧
   world (nix_shell ex_escape [] "/cache" s).2 = world s) ∧
  (nix_shell ex_escape ["hello"] "/cache" s).1 = Raise CalledProcessError.
Proof.
  intros s. split.
  - destruct (X7_nix_shell ex_escape [] "/cache" s) as (_ & Hempty & _).
    destruct (Hempty eq_refl) as (Hr & Hw & _). exact (conj Hr Hw).
  - destruct (X7_nix_shell ex_escape ["hello"] "/cache" s) as (_ & _ & Hsome).
    destruct (Hsome ltac:(discriminate)) as [_ Hr]. exact Hr.
Defined.

Lemma X8_nothing_buildable_no_build_witness :
  let s := ex_state [mkCompleted 0 "unbuildable"] in
  let r := nix_build "/root" ex_escape ex_dump ex_loads_more ex_split 4
             ["x"; "tests.nixos-functions.nixosTest-test"] EmptyString
             "/cache" s in
  r.1 = Ok (_nix_eval_filter ex_unbuildable (store s)).1 ∧
  new_events s r.2 =
    eval_events "/root" ex_dump ["x"; "tests.nixos-functions.nixosTest-test"] s
    ++ [EvUnlink (eval_file s)].
Proof.
  intros s.
  apply (X8_nothing_buildable_no_build "/root" ex_escape ex_dump ex_loads_more
           ex_split 4 ["x"; "tests.nixos-functions.nixosTest-test"]
           EmptyString "/cache" s ex_unbuildable).
  - discriminate.
  - reflexivity.
  - reflexivity.
  - intros it Hin.
    apply elem_of_cons in Hin as [->|Hin]; [left; reflexivity|].
    apply list_elem_of_singleton in Hin as ->. right.
    simpl. unfold blacklist. set_solver.
Defined.

Lemma X9_unsplittable_args_witness :
  let s := ex_state [mkCompleted 0 "pair"] in
  let r := nix_build "/root" ex_escape ex_dump ex_loads ex_split_strict 4
             ["a"; "bb"] "'" "/cache" s in
  r.1 = Raise ValueError ∧
  new_events s r.2 =
    eval_events "/root" ex_dump ["a"; "bb"] s ++
    [EvUnlink (eval_file s);
     EvWrite (joinpath "/cache" "build.nix")
       (shell_expression ex_escape
          (filtered (_nix_eval_filter ex_pair (store s)).1))].
Proof.
  intros s.
  apply (X9_unsplittable_args "/root" ex_escape ex_dump ex_loads
           ex_split_strict 4 ["a"; "bb"] "'" "/cache" s ex_pair).
  - discriminate.
  - reflexivity.
  - reflexivity.
  - vm_compute. discriminate.
  - reflexivity.
Defined.

Lemma X10_only_eval_failure_escapes_witness :
  let s := ex_state [mkCompleted 1 EmptyString] in
  let r := ex_nix_build ["a"] EmptyString s in
  r.1 = Raise CalledProcessError ∧
  store r.2 = store s ∧
  new_events s r.2 =
    eval_events "/root" ex_dump ["a"] s ++ [EvWarn (eval_warning "/root" s)].
Proof.
  intros s.
  destruct (X10_only_eval_failure_escapes "/root" ex_escape ex_dump ex_loads
              ex_split 4 ["a"] EmptyString "/cache" s ltac:(discriminate))
    as [Hiff Hkeep].
  split.
  - apply Hiff. vm_compute. discriminate.
  - apply Hkeep. vm_compute. discriminate.
Defined.

Lemma X11_build_footprint_witness :
  let s := ex_state [mkCompleted 0 "pair"; mkCompleted 1 EmptyString] in
  let r := ex_nix_build ["a"; "bb"] EmptyString s in
  trace r.2 = trace s ++ new_events s r.2 ∧
  "/tmp/tmpattrs" = eval_file s ∧
  ("/cache/build.nix" = eval_file s ∨
   "/cache/build.nix" = joinpath "/cache" "build.nix") ∧
  length (filter (λ e, is_run e = true) (new_events s r.2)) ≤ 2.
Proof.
  intros s.
  destruct (X11_build_footprint "/root" ex_escape ex_dump ex_loads ex_split 4
              ["a"; "bb"] EmptyString "/cache" s) as (Ht & Hu & Hw & Hl).
  split; [exact Ht|]. split; [|split; [|exact Hl]].
  - apply Hu. vm_compute. repeat constructor.
  - apply (Hw "/cache/build.nix" (shell_expression ex_escape ["a"])).
    vm_compute. repeat constructor.
Defined.

Lemma X12_eval_returns_filtered_response_witness :
  let failing := ex_state [mkCompleted 1 EmptyString] in
  let passing := ex_state [mkCompleted 0 "pair"] in
  ((ex_nix_eval ["a"; "bb"] failing).1 = Raise CalledProcessError ∧
   store (ex_nix_eval ["a"; "bb"] failing).2 = store failing) ∧
  (ex_nix_eval ["a"; "bb"] passing).1 =
    Ok (_nix_eval_filter ex_pair (store passing)).1 ∧
  store (ex_nix_eval ["a"; "bb"] passing).2 =
    (_nix_eval_filter ex_pair (store passing)).2.
Proof.
  intros failing passing. split; [|split].
  - destruct (X12_eval_returns_filtered_response "/root" ex_dump ex_loads
                ["a"; "bb"] failing) as (_ & _ & Hfail).
    apply Hfail. vm_compute. discriminate.
  - destruct (X12_eval_returns_filtered_response "/root" ex_dump ex_loads
                ["a"; "bb"] passing) as (Hiff & _ & _).
    apply Hiff. split; [reflexivity|]. exists ex_pair. split; reflexivity.
  - destruct (X12_eval_returns_filtered_response "/root" ex_dump ex_loads
                ["a"; "bb"] passing) as (_ & Hstore & _).
    apply Hstore; reflexivity.
Defined.

Lemma X13_was_build_keeps_target_witness :
  let s := ex_state [mkCompleted 0 EmptyString] in
  let t := new_attr (ex_item "a" (Some "/p")) in
  let t' := set_path_verified t (Some true) in
  let s' : state script :=
    mkState [] initial_heap
      [EvRun ["nix-store"; "--verify-path"; "/p"] None] in
  length [true; true] = 2 ∧
  name t' = name t ∧ exists_ t' = exists_ t ∧
  broken t' = broken t ∧ blacklisted t' = blacklisted t ∧
  path t' = path t ∧ drv_path t' = drv_path t ∧
  aliases t' = aliases t ∧
  store s' = store s.
Proof.
  intros s t t' s'.
  apply (X13_was_build_keeps_target 2 t t' s s' [true; true]).
  vm_compute. reflexivity.
Defined.

Lemma X14_fresh_target_is_checked_witness :
  let s := ex_state [mkCompleted 0 EmptyString] in
  let t := new_attr (ex_item "a" (Some "/p")) in
  was_build t s =
  (Ok (true, set_path_verified t (Some true)),
   mkState [] (store s) [EvRun ["nix-store"; "--verify-path"; "/p"] None]).
Proof.
  intros s t.
  refine (eq_trans
            (X14_fresh_target_is_checked ex_two_paths initial_heap t "/p" s _ _)
            _).
  - vm_compute. repeat constructor.
  - reflexivity.
  - vm_compute. reflexivity.
Defined.

Lemma X15_is_test_prefix_witness :
  is_test (new_attr (ex_item "nixosTests.login" None)) = true.
Proof.
  apply (X15_is_test_prefix (new_attr (ex_item "nixosTests.login" None))).
  exists ".login". reflexivity.
Defined.

Lemma X16_description_determines_attrs_witness :
  ["hello"; "git"] = ["hello"; "git"].
Proof.
  apply (X16_description_determines_attrs ex_escape).
  - intros a a' Ha. exact Ha.
  - intros a Ha.
    repeat (apply elem_of_cons in Ha as [->|Ha]; [reflexivity|]).
    by apply elem_of_nil in Ha.
  - reflexivity.
Defined.

(** Two different lists of attributes give two different texts. *)
Example descriptions_differ :
  shell_expression ex_escape ["hello"; "git"] ≠
  shell_expression ex_escape ["hello.git"].
Proof. vm_compute. discriminate. Qed.

(** ** Which item survives, and cached verdicts *)

Lemma dict_get_elem {V} (d : dict V) (k : string) (v : V) :
  dict_get d k = Some v → (k, v) ∈ d.
Proof.
  induction d as [|[k' v'] d IH]; [done|]. simpl.
  case_decide; intros Hget; simplify_eq; [left | right; auto].
Qed.

(** X17: an item whose name is strictly shorter than the name of every
    other item with the same output path always yields a returned target,
    wherever it stands in the response. *)
Theorem X17_shortest_name_survives (json : dict props) (h : heap)
    (it : string * props) (p : string) :
  it ∈ json → p_path it.2 = Some p →
  (∀ x, x ∈ json → p_path x.2 = Some p → x ≠ it →
        String.length it.1 < String.length x.1) →
  new_attr it ∈ (_nix_eval_filter json h).1.
Proof.
  intros Hit Hp Hshort.
  pose proof (filter_loop_inv json h) as [Hkeys Hcanon _].
  assert (Hk : p ∈ dict_keys (filter_loop json h).1.1).
  { rewrite Hkeys. apply first_seen_elem, resolved_paths_elem. by exists it. }
  destruct (dict_get (filter_loop json h).1.1 p) as [t|] eqn:Eget;
    [|by apply dict_get_None in Eget].
  destruct (Hcanon _ _ Eget) as (c & Hc & ->).
  assert (c = it) as ->.
  { destruct (decide (c = it)) as [|Hne]; [done|].
    assert (Hcp : p_path c.2 = Some p) by by destruct Hc as (? & ? & _ & ? & _).
    pose proof (Hshort c (canonical_of_elem _ _ _ Hc) Hcp Hne).
    pose proof (canonical_of_min _ _ _ _ Hc Hit Hp). lia. }
  rewrite nix_eval_filter_fst. apply elem_of_app. left.
  apply dict_get_elem in Eget. unfold dict_values.
  by apply (list_elem_of_fmap_2 snd _ (p, new_attr it)).
Qed.

Lemma X17_shortest_name_survives_witness :
  new_attr (ex_item "a" (Some "/store/xyz"))
    ∈ (_nix_eval_filter (reverse ex_pair) initial_heap).1.
Proof.
  apply (X17_shortest_name_survives (reverse ex_pair) initial_heap
           (ex_item "a" (Some "/store/xyz")) "/store/xyz").
  - right. left.
  - reflexivity.
  - intros x Hx _ Hne.
    apply elem_of_cons in Hx as [->|Hx]; [simpl; lia|].
    apply list_elem_of_singleton in Hx. by destruct Hne.
Defined.

Section cached_verdict.

Context {World : Type} `{External World}.

(** X18: once a target with an output path holds a verdict, every later
    [was_build] answers that verdict and does nothing else: no program is
    run, and the target and the state stay as they are, whatever the store
    check would answer now. *)
Theorem X18_cached_verdict_is_final (n : nat) (self : Attr) (p : string)
    (b : bool) (s : state World) :
  path self = Some p → _path_verified self = Some b →
  was_build self s = (Ok (b, self), s) ∧
  was_build_repeat n self s = (Ok (replicate n b, self), s).
Proof.
  intros Hp Hv. split; [|by eapply was_build_repeat_cached].
  unfold was_build. by rewrite Hp, Hv.
Qed.

End cached_verdict.

Lemma X18_cached_verdict_is_final_witness :
  let s := ex_state [mkCompleted 0 EmptyString] in
  let t := set_path_verified (new_attr (ex_item "a" (Some "/p"))) (Some false) in
  was_build t s = (Ok (false, t), s) ∧
  was_build_repeat 2 t s = (Ok ([false; false], t), s).
Proof.
  intros s t. apply (X18_cached_verdict_is_final 2 t "/p" false s); reflexivity.
Defined.
